(** * ONC RPC message envelope (eden/fs/nfs/rpc/Rpc.h) over XDR

    A shallow embedding of the RPC message model declared in [Rpc.h]:
    the protocol enumerations, the field-list structures whose codec is
    generated by [EDEN_XDR_SERDE_DECL] / [EDEN_XDR_SERDE_IMPL], and the two
    discriminated unions [rejected_reply] and [reply_body] with their
    hand-written deserializers.

    [folly::io::QueueAppender] is an append-only byte sink and is modelled
    as the list of bytes written so far; [folly::io::Cursor] is modelled as
    the list of bytes still to be read.  A deserializer either returns the
    value together with the advanced cursor, or raises; raising is the
    [Err] branch of [result]. *)

From Stdlib Require Import Arith NArith List Bool Lia.
From Stdlib Require String.
From Stdlib Require Import Strings.Byte.
Import ListNotations.

Local Open Scope N_scope.

(** ** Bytes and 32-bit words *)

Definition uint32_t := N.

Definition u32_ok (x : uint32_t) : Prop := x < 2 ^ 32.

(** The low eight bits of [n] as a byte. *)
Definition byte_of_N (n : N) : byte :=
  match Byte.of_N (n mod 256) with
  | Some b => b
  | None => "000"%byte
  end.

(** The four bytes of a word, most significant first. *)
Definition be32_bytes (x : uint32_t) : list byte :=
  [byte_of_N (x / 2 ^ 24); byte_of_N (x / 2 ^ 16);
   byte_of_N (x / 2 ^ 8); byte_of_N x].

Definition be32 (b0 b1 b2 b3 : byte) : uint32_t :=
  Byte.to_N b0 * 2 ^ 24 + Byte.to_N b1 * 2 ^ 16
  + Byte.to_N b2 * 2 ^ 8 + Byte.to_N b3.

(** ** Sink, cursor and the decoding monad *)

Definition Appender := list byte.
Definition Cursor := list byte.

(** Modelled from the spec: the exceptions raised while decoding are
    thrown inside Xdr.h and folly; their taxonomy is "TruncatedInput,
    InvalidEnumValue, InvalidBoolean, and a caller-level
    VersionMismatch". *)
Inductive DecodeError : Type :=
| TruncatedInput
| InvalidEnumValue
| InvalidBoolean
| VersionMismatch.

Inductive result (A : Type) : Type :=
| Ok (a : A)
| Err (e : DecodeError).
Arguments Ok {A} a.
Arguments Err {A} e.

Definition Decoder (A : Type) : Type := Cursor -> result (A * Cursor).

Definition ret {A} (a : A) : Decoder A := fun c => Ok (a, c).

Definition raise {A} (e : DecodeError) : Decoder A := fun _ => Err e.

Definition bind {A B} (m : Decoder A) (k : A -> Decoder B) : Decoder B :=
  fun c =>
    match m c with
    | Ok (a, c') => k a c'
    | Err e => Err e
    end.

Declare Scope xdr_scope.
Delimit Scope xdr_scope with xdr.
Notation "x <- m ;; k" := (bind m (fun x => k))
  (at level 61, m at next level, right associativity) : xdr_scope.
Local Open Scope xdr_scope.

(** ** The XdrTrait interface

    [XdrTrait<T>::serialize(appender, value)] and
    [XdrTrait<T>::deserialize(cursor)]. *)

Class XdrTrait (T : Type) : Type := {
  serialize : Appender -> T -> Appender;
  deserialize : Decoder T
}.

(** [operator==] on a message type. *)
Class EqOp (T : Type) : Type := { eq_op : T -> T -> bool }.
Infix "==" := eq_op (at level 70, no associativity) : xdr_scope.

(** ** Primitive codecs (eden/fs/nfs/xdr/Xdr.h) *)

(** Modelled from the spec: [XdrTrait<uint32_t>] lives in Xdr.h, which is
    not part of the sources at hand.  "u32: 4 bytes, big-endian, no
    padding"; reading from a cursor with fewer than four bytes left is the
    [TruncatedInput] failure. *)
#[export] Instance XdrTrait_uint32_t : XdrTrait uint32_t := {
  serialize appender x := appender ++ be32_bytes x;
  deserialize c :=
    match c with
    | b0 :: b1 :: b2 :: b3 :: rest => Ok (be32 b0 b1 b2 b3, rest)
    | _ => Err TruncatedInput
    end
}.

#[export] Instance EqOp_uint32_t : EqOp uint32_t := { eq_op := N.eqb }.

#[export] Instance EqOp_byte : EqOp byte := { eq_op := Byte.eqb }.

(** [operator==] of [std::vector<T>]: same size and equal elements. *)
Fixpoint vector_eq {T} `{EqOp T} (a b : list T) : bool :=
  match a, b with
  | [], [] => true
  | x :: a', y :: b' => (x == y) && vector_eq a' b'
  | _, _ => false
  end.

(** Modelled from the spec: the enum rule of Xdr.h.  "enum: encoded as its
    u32 ordinal; decode fails with InvalidEnumValue if the read value does
    not match any declared variant". *)
Definition serialize_enum {E} (ordinal : E -> uint32_t)
    (appender : Appender) (e : E) : Appender :=
  serialize appender (ordinal e).

(** Modelled from the spec: the decoding half of the enum rule of
    Xdr.h. *)
Definition deserialize_enum {E} (of_ordinal : uint32_t -> option E)
    : Decoder E :=
  n <- deserialize (T := uint32_t) ;;
  match of_ordinal n with
  | Some e => ret e
  | None => raise InvalidEnumValue
  end.

(** Modelled from the spec: the number of padding bytes after [len] bytes
    of data (Xdr.h), "pad(L) = (4 - L % 4) % 4". *)
Definition pad (len : N) : N := (4 - len mod 4) mod 4.

(** Modelled from the spec: reading [len] data bytes and their padding
    (Xdr.h).  The padding must be present; its contents are not
    inspected. *)
Definition read_padded (len : N) : Decoder (list byte) :=
  fun c =>
    if N.of_nat (length c) <? len + pad len
    then Err TruncatedInput
    else Ok (firstn (N.to_nat len) c, skipn (N.to_nat (len + pad len)) c).

Definition OpaqueBytes := list byte.

(** Modelled from the spec: [XdrTrait<std::vector<uint8_t>>] of Xdr.h.
    "variable-length opaque bytes / string: u32 length L, then L bytes,
    then padding to the next 4-byte boundary.  Decode fails with
    TruncatedInput if fewer than 4+L+padding bytes remain". *)
Definition serialize_variable (appender : Appender) (data : list byte)
    : Appender :=
  let len := N.of_nat (length data) in
  serialize appender len ++ data ++ repeat "000"%byte (N.to_nat (pad len)).

(** Modelled from the spec: the decoding half of the variable-length
    rule of Xdr.h. *)
Definition deserialize_variable : Decoder (list byte) :=
  len <- deserialize (T := uint32_t) ;;
  read_padded len.

(** Modelled from the spec: [XdrTrait<OpaqueBytes>] (Xdr.h) is the
    variable-length rule. *)
#[export] Instance XdrTrait_OpaqueBytes : XdrTrait OpaqueBytes := {
  serialize := serialize_variable;
  deserialize := deserialize_variable
}.

#[export] Instance EqOp_OpaqueBytes : EqOp OpaqueBytes := {
  eq_op := vector_eq
}.

(** Modelled from the spec: [XdrTrait<std::string>] of Xdr.h; a string is
    encoded as the variable-length opaque holding its bytes. *)
#[export] Instance XdrTrait_string : XdrTrait String.string := {
  serialize appender s := serialize_variable appender (String.list_byte_of_string s);
  deserialize :=
    data <- deserialize_variable ;;
    ret (String.string_of_list_byte data)
}.

#[export] Instance EqOp_string : EqOp String.string := { eq_op := String.eqb }.

(** Modelled from the spec: [XdrTrait<std::vector<T>>] of Xdr.h.
    "sequence of T: u32 count C, then C elements of T encoded
    consecutively". *)
Fixpoint serialize_elements {T} `{XdrTrait T} (appender : Appender)
    (l : list T) : Appender :=
  match l with
  | [] => appender
  | x :: l' => serialize_elements (serialize appender x) l'
  end.

(** Modelled from the spec: reading [count] elements one after the other
    (Xdr.h); the first element that raises ends the sequence with its
    error. *)
Fixpoint deserialize_elements {T} `{XdrTrait T} (count : nat)
    : Decoder (list T) :=
  match count with
  | O => ret []
  | S n =>
      x <- deserialize ;;
      l <- deserialize_elements n ;;
      ret (x :: l)
  end.

(** Modelled from the spec: [XdrTrait<std::vector<uint32_t>>] (Xdr.h), the
    sequence rule at element type [uint32_t]. *)
#[export] Instance XdrTrait_vector_uint32_t : XdrTrait (list uint32_t) := {
  serialize appender l :=
    serialize_elements (serialize appender (N.of_nat (length l))) l;
  deserialize :=
    count <- deserialize (T := uint32_t) ;;
    deserialize_elements (N.to_nat count)
}.

#[export] Instance EqOp_vector_uint32_t : EqOp (list uint32_t) := {
  eq_op := vector_eq
}.

(** ** Protocol enumerations (Rpc.h, lines 84-143) *)

Inductive auth_flavor : Type :=
| AUTH_NONE
| AUTH_SYS
| AUTH_SHORT
| AUTH_DH
| RPCSEC_GSS.

(** "AUTH_UNIX is the same as AUTH_SYS". *)
Definition AUTH_UNIX : auth_flavor := AUTH_SYS.

Definition auth_flavor_ordinal (f : auth_flavor) : uint32_t :=
  match f with
  | AUTH_NONE => 0
  | AUTH_SYS => 1
  | AUTH_SHORT => 2
  | AUTH_DH => 3
  | RPCSEC_GSS => 6
  end.

Definition auth_flavor_of_ordinal (n : uint32_t) : option auth_flavor :=
  match n with
  | 0 => Some AUTH_NONE
  | 1 => Some AUTH_SYS
  | 2 => Some AUTH_SHORT
  | 3 => Some AUTH_DH
  | 6 => Some RPCSEC_GSS
  | _ => None
  end.

Inductive msg_type : Type :=
| CALL
| REPLY.

Definition msg_type_ordinal (m : msg_type) : uint32_t :=
  match m with
  | CALL => 0
  | REPLY => 1
  end.

Definition msg_type_of_ordinal (n : uint32_t) : option msg_type :=
  match n with
  | 0 => Some CALL
  | 1 => Some REPLY
  | _ => None
  end.

Inductive reply_stat : Type :=
| MSG_ACCEPTED
| MSG_DENIED.

Definition reply_stat_ordinal (s : reply_stat) : uint32_t :=
  match s with
  | MSG_ACCEPTED => 0
  | MSG_DENIED => 1
  end.

Definition reply_stat_of_ordinal (n : uint32_t) : option reply_stat :=
  match n with
  | 0 => Some MSG_ACCEPTED
  | 1 => Some MSG_DENIED
  | _ => None
  end.

Inductive accept_stat : Type :=
| SUCCESS
| PROG_UNAVAIL
| PROG_MISMATCH
| PROC_UNAVAIL
| GARBAGE_ARGS
| SYSTEM_ERR.

Definition accept_stat_ordinal (s : accept_stat) : uint32_t :=
  match s with
  | SUCCESS => 0
  | PROG_UNAVAIL => 1
  | PROG_MISMATCH => 2
  | PROC_UNAVAIL => 3
  | GARBAGE_ARGS => 4
  | SYSTEM_ERR => 5
  end.

Definition accept_stat_of_ordinal (n : uint32_t) : option accept_stat :=
  match n with
  | 0 => Some SUCCESS
  | 1 => Some PROG_UNAVAIL
  | 2 => Some PROG_MISMATCH
  | 3 => Some PROC_UNAVAIL
  | 4 => Some GARBAGE_ARGS
  | 5 => Some SYSTEM_ERR
  | _ => None
  end.

Inductive reject_stat : Type :=
| RPC_MISMATCH
| AUTH_ERROR.

Definition reject_stat_ordinal (s : reject_stat) : uint32_t :=
  match s with
  | RPC_MISMATCH => 0
  | AUTH_ERROR => 1
  end.

Definition reject_stat_of_ordinal (n : uint32_t) : option reject_stat :=
  match n with
  | 0 => Some RPC_MISMATCH
  | 1 => Some AUTH_ERROR
  | _ => None
  end.

Inductive auth_stat : Type :=
| AUTH_OK
| AUTH_BADCRED
| AUTH_REJECTEDCRED
| AUTH_BADVERF
| AUTH_REJECTEDVERF
| AUTH_TOOWEAK
| AUTH_INVALIDRESP
| AUTH_FAILED
| AUTH_KERB_GENERIC
| AUTH_TIMEEXPIRE
| AUTH_TKT_FILE
| AUTH_DECODE
| AUTH_NET_ADDR
| RPCSEC_GSS_CREDPROBLEM
| RPCSEC_GSS_CTXPROBLEM.

Definition auth_stat_ordinal (s : auth_stat) : uint32_t :=
  match s with
  | AUTH_OK => 0
  | AUTH_BADCRED => 1
  | AUTH_REJECTEDCRED => 2
  | AUTH_BADVERF => 3
  | AUTH_REJECTEDVERF => 4
  | AUTH_TOOWEAK => 5
  | AUTH_INVALIDRESP => 6
  | AUTH_FAILED => 7
  | AUTH_KERB_GENERIC => 8
  | AUTH_TIMEEXPIRE => 9
  | AUTH_TKT_FILE => 10
  | AUTH_DECODE => 11
  | AUTH_NET_ADDR => 12
  | RPCSEC_GSS_CREDPROBLEM => 13
  | RPCSEC_GSS_CTXPROBLEM => 14
  end.

Definition auth_stat_of_ordinal (n : uint32_t) : option auth_stat :=
  match n with
  | 0 => Some AUTH_OK
  | 1 => Some AUTH_BADCRED
  | 2 => Some AUTH_REJECTEDCRED
  | 3 => Some AUTH_BADVERF
  | 4 => Some AUTH_REJECTEDVERF
  | 5 => Some AUTH_TOOWEAK
  | 6 => Some AUTH_INVALIDRESP
  | 7 => Some AUTH_FAILED
  | 8 => Some AUTH_KERB_GENERIC
  | 9 => Some AUTH_TIMEEXPIRE
  | 10 => Some AUTH_TKT_FILE
  | 11 => Some AUTH_DECODE
  | 12 => Some AUTH_NET_ADDR
  | 13 => Some RPCSEC_GSS_CREDPROBLEM
  | 14 => Some RPCSEC_GSS_CTXPROBLEM
  | _ => None
  end.

(** An enumeration as the codec sees it: its ordinal on the wire and the
    declared variant, if any, of a wire value. *)
Class XdrEnum (E : Type) : Type := {
  ordinal : E -> uint32_t;
  of_ordinal : uint32_t -> option E
}.

#[export] Instance XdrEnum_auth_flavor : XdrEnum auth_flavor :=
  {| ordinal := auth_flavor_ordinal; of_ordinal := auth_flavor_of_ordinal |}.
#[export] Instance XdrEnum_msg_type : XdrEnum msg_type :=
  {| ordinal := msg_type_ordinal; of_ordinal := msg_type_of_ordinal |}.
#[export] Instance XdrEnum_reply_stat : XdrEnum reply_stat :=
  {| ordinal := reply_stat_ordinal; of_ordinal := reply_stat_of_ordinal |}.
#[export] Instance XdrEnum_accept_stat : XdrEnum accept_stat :=
  {| ordinal := accept_stat_ordinal; of_ordinal := accept_stat_of_ordinal |}.
#[export] Instance XdrEnum_reject_stat : XdrEnum reject_stat :=
  {| ordinal := reject_stat_ordinal; of_ordinal := reject_stat_of_ordinal |}.
#[export] Instance XdrEnum_auth_stat : XdrEnum auth_stat :=
  {| ordinal := auth_stat_ordinal; of_ordinal := auth_stat_of_ordinal |}.

(** Modelled from the spec: [XdrTrait<T>] for an enumeration [T] (Xdr.h)
    is the enum rule at the ordinals [T] declares. *)
#[export] Instance XdrTrait_enum {E} `{XdrEnum E} : XdrTrait E := {
  serialize := serialize_enum ordinal;
  deserialize := deserialize_enum of_ordinal
}.

(** [==] on the values of an enumeration compares their ordinals. *)
#[export] Instance EqOp_enum {E} `{XdrEnum E} : EqOp E := {
  eq_op a b := ordinal a =? ordinal b
}.

(** ** Field-list structures (Rpc.h, lines 147-183 and 225-244)

    For a structure declared with fields [f1 ... fn],
    [EDEN_XDR_SERDE_DECL] expands [serialize] to one
    [XdrTrait<decltype(a.f)>::serialize(appender, a.f)] per field, in the
    listed order, on the same appender, and [deserialize] to one
    [ret.f = XdrTrait<decltype(ret.f)>::deserialize(cursor)] per field
    followed by [return ret].  [EDEN_XDR_SERDE_IMPL] expands [operator==]
    to [a.f1 == b.f1 && ... && a.fn == b.fn && 1].

    Projections share one name space: where two structures declare the
    same field name, the later one carries the initials of its
    structure. *)

Record opaque_auth : Type := {
  flavor : auth_flavor;
  body : OpaqueBytes
}.

#[export] Instance XdrTrait_opaque_auth : XdrTrait opaque_auth := {
  serialize appender a :=
    let appender := serialize appender (flavor a) in
    let appender := serialize appender (body a) in
    appender;
  deserialize :=
    r_flavor <- deserialize ;;
    r_body <- deserialize ;;
    ret {| flavor := r_flavor; body := r_body |}
}.

#[export] Instance EqOp_opaque_auth : EqOp opaque_auth := {
  eq_op a b := (flavor a == flavor b) && (body a == body b) && true
}.

Definition kRPCVersion : uint32_t := 2.

Record call_body : Type := {
  rpcvers : uint32_t;
  prog : uint32_t;
  vers : uint32_t;
  proc : uint32_t;
  cred : opaque_auth;
  verf : opaque_auth
}.

#[export] Instance XdrTrait_call_body : XdrTrait call_body := {
  serialize appender a :=
    let appender := serialize appender (rpcvers a) in
    let appender := serialize appender (prog a) in
    let appender := serialize appender (vers a) in
    let appender := serialize appender (proc a) in
    let appender := serialize appender (cred a) in
    let appender := serialize appender (verf a) in
    appender;
  deserialize :=
    r_rpcvers <- deserialize ;;
    r_prog <- deserialize ;;
    r_vers <- deserialize ;;
    r_proc <- deserialize ;;
    r_cred <- deserialize ;;
    r_verf <- deserialize ;;
    ret {| rpcvers := r_rpcvers; prog := r_prog; vers := r_vers;
           proc := r_proc; cred := r_cred; verf := r_verf |}
}.

#[export] Instance EqOp_call_body : EqOp call_body := {
  eq_op a b :=
    (rpcvers a == rpcvers b) && (prog a == prog b) && (vers a == vers b)
    && (proc a == proc b) && (cred a == cred b) && (verf a == verf b)
    && true
}.

Record rpc_msg_call : Type := {
  xid : uint32_t;
  mtype : msg_type;
  cbody : call_body
}.

#[export] Instance XdrTrait_rpc_msg_call : XdrTrait rpc_msg_call := {
  serialize appender a :=
    let appender := serialize appender (xid a) in
    let appender := serialize appender (mtype a) in
    let appender := serialize appender (cbody a) in
    appender;
  deserialize :=
    r_xid <- deserialize ;;
    r_mtype <- deserialize ;;
    r_cbody <- deserialize ;;
    ret {| xid := r_xid; mtype := r_mtype; cbody := r_cbody |}
}.

#[export] Instance EqOp_rpc_msg_call : EqOp rpc_msg_call := {
  eq_op a b :=
    (xid a == xid b) && (mtype a == mtype b) && (cbody a == cbody b) && true
}.

Record mismatch_info : Type := {
  low : uint32_t;
  high : uint32_t
}.

#[export] Instance XdrTrait_mismatch_info : XdrTrait mismatch_info := {
  serialize appender a :=
    let appender := serialize appender (low a) in
    let appender := serialize appender (high a) in
    appender;
  deserialize :=
    r_low <- deserialize ;;
    r_high <- deserialize ;;
    ret {| low := r_low; high := r_high |}
}.

#[export] Instance EqOp_mismatch_info : EqOp mismatch_info := {
  eq_op a b := (low a == low b) && (high a == high b) && true
}.

Record accepted_reply : Type := {
  ar_verf : opaque_auth;
  stat : accept_stat
}.

#[export] Instance XdrTrait_accepted_reply : XdrTrait accepted_reply := {
  serialize appender a :=
    let appender := serialize appender (ar_verf a) in
    let appender := serialize appender (stat a) in
    appender;
  deserialize :=
    r_verf <- deserialize ;;
    r_stat <- deserialize ;;
    ret {| ar_verf := r_verf; stat := r_stat |}
}.

#[export] Instance EqOp_accepted_reply : EqOp accepted_reply := {
  eq_op a b := (ar_verf a == ar_verf b) && (stat a == stat b) && true
}.

Record authsys_parms : Type := {
  stamp : uint32_t;
  machinename : String.string;
  uid : uint32_t;
  gid : uint32_t;
  gids : list uint32_t
}.

#[export] Instance XdrTrait_authsys_parms : XdrTrait authsys_parms := {
  serialize appender a :=
    let appender := serialize appender (stamp a) in
    let appender := serialize appender (machinename a) in
    let appender := serialize appender (uid a) in
    let appender := serialize appender (gid a) in
    let appender := serialize appender (gids a) in
    appender;
  deserialize :=
    r_stamp <- deserialize ;;
    r_machinename <- deserialize ;;
    r_uid <- deserialize ;;
    r_gid <- deserialize ;;
    r_gids <- deserialize ;;
    ret {| stamp := r_stamp; machinename := r_machinename; uid := r_uid;
           gid := r_gid; gids := r_gids |}
}.

#[export] Instance EqOp_authsys_parms : EqOp authsys_parms := {
  eq_op a b :=
    (stamp a == stamp b) && (machinename a == machinename b)
    && (uid a == uid b) && (gid a == gid b) && (gids a == gids b) && true
}.

(** ** Discriminated unions (Rpc.h, lines 185-223) *)

(** Modelled from the spec: the payload slot of [XdrVariant] (Xdr.h).  The
    slot holds one of the two payload shapes or is unset ("the variant
    [can] exist with tag set but payload unset"). *)
Inductive variant (A B : Type) : Type :=
| monostate
| alt0 (a : A)
| alt1 (b : B).
Arguments monostate {A B}.
Arguments alt0 {A B} a.
Arguments alt1 {A B} b.

(** Modelled from the spec: [XdrVariant<TagType, A, B>] (Xdr.h), "a tag
    plus an untyped payload slot"; the two members are the [tag] and [v]
    that the deserializers of Rpc.h assign. *)
Record XdrVariant (TagType A B : Type) : Type := {
  tag : TagType;
  v : variant A B
}.
Arguments tag {TagType A B} _.
Arguments v {TagType A B} _.

(** Modelled from the spec: [XdrTrait<XdrVariant<...>>::serialize]
    (Xdr.h).  "Encode: write the discriminant (as its enum encoding), then
    write the active payload using the payload type's own encode rule."
    An unset slot has no active payload and writes nothing. *)
Definition serialize_variant {TagType A B}
    `{XdrTrait TagType} `{XdrTrait A} `{XdrTrait B}
    (appender : Appender) (value : XdrVariant TagType A B) : Appender :=
  let appender := serialize appender (tag value) in
  match v value with
  | monostate => appender
  | alt0 a => serialize appender a
  | alt1 b => serialize appender b
  end.

(** Modelled from the spec: [operator==] of [XdrVariant] (Xdr.h); equal
    tags and equal slots, two slots being equal when they hold the same
    alternative with equal contents. *)
Definition variant_eq {A B} `{EqOp A} `{EqOp B} (x y : variant A B) : bool :=
  match x, y with
  | monostate, monostate => true
  | alt0 a, alt0 a' => a == a'
  | alt1 b, alt1 b' => b == b'
  | _, _ => false
  end.

#[export] Instance EqOp_variant {A B} `{EqOp A} `{EqOp B}
    : EqOp (variant A B) := { eq_op := variant_eq }.

(** Modelled from the spec: [operator==] of [XdrVariant] (Xdr.h) compares
    the tag, then the slot. *)
Definition XdrVariant_eq {TagType A B} `{EqOp TagType} `{EqOp A} `{EqOp B}
    (a b : XdrVariant TagType A B) : bool :=
  (tag a == tag b) && (v a == v b).

Definition rejected_reply : Type :=
  XdrVariant reject_stat mismatch_info auth_stat.

(** [XdrTrait<rejected_reply>::deserialize] (lines 190-202).  The switch
    lists every declared [reject_stat]. *)
Definition deserialize_rejected_reply : Decoder rejected_reply :=
  r_tag <- deserialize (T := reject_stat) ;;
  match r_tag with
  | RPC_MISMATCH =>
      r_v <- deserialize (T := mismatch_info) ;;
      ret {| tag := r_tag; v := alt0 r_v |}
  | AUTH_ERROR =>
      r_v <- deserialize (T := auth_stat) ;;
      ret {| tag := r_tag; v := alt1 r_v |}
  end.

#[export] Instance XdrTrait_rejected_reply : XdrTrait rejected_reply := {
  serialize := serialize_variant;
  deserialize := deserialize_rejected_reply
}.

#[export] Instance EqOp_rejected_reply : EqOp rejected_reply := {
  eq_op := XdrVariant_eq
}.

Definition reply_body : Type :=
  XdrVariant reply_stat accepted_reply rejected_reply.

(** [XdrTrait<reply_body>::deserialize] (lines 210-222). *)
Definition deserialize_reply_body : Decoder reply_body :=
  r_tag <- deserialize (T := reply_stat) ;;
  match r_tag with
  | MSG_ACCEPTED =>
      r_v <- deserialize (T := accepted_reply) ;;
      ret {| tag := r_tag; v := alt0 r_v |}
  | MSG_DENIED =>
      r_v <- deserialize (T := rejected_reply) ;;
      ret {| tag := r_tag; v := alt1 r_v |}
  end.

#[export] Instance XdrTrait_reply_body : XdrTrait reply_body := {
  serialize := serialize_variant;
  deserialize := deserialize_reply_body
}.

#[export] Instance EqOp_reply_body : EqOp reply_body := {
  eq_op := XdrVariant_eq
}.

Record rpc_msg_reply : Type := {
  rmr_xid : uint32_t;
  rmr_mtype : msg_type;
  rbody : reply_body
}.

#[export] Instance XdrTrait_rpc_msg_reply : XdrTrait rpc_msg_reply := {
  serialize appender a :=
    let appender := serialize appender (rmr_xid a) in
    let appender := serialize appender (rmr_mtype a) in
    let appender := serialize appender (rbody a) in
    appender;
  deserialize :=
    r_xid <- deserialize ;;
    r_mtype <- deserialize ;;
    r_rbody <- deserialize ;;
    ret {| rmr_xid := r_xid; rmr_mtype := r_mtype; rbody := r_rbody |}
}.

#[export] Instance EqOp_rpc_msg_reply : EqOp rpc_msg_reply := {
  eq_op a b :=
    (rmr_xid a == rmr_xid b) && (rmr_mtype a == rmr_mtype b)
    && (rbody a == rbody b) && true
}.

(** * Vocabulary of the properties *)

(** ** Behaviour of decoders *)

(** A decoder is prefix-safe when every successful run consumed a prefix
    of its input, yields the same value whatever follows that prefix, and
    fails with [TruncatedInput] on every strictly shorter piece of it. *)
Definition prefix_safe {A} (D : Decoder A) : Prop :=
  forall c a rest, D c = Ok (a, rest) ->
    exists used, c = used ++ rest /\
      (forall rest', D (used ++ rest') = Ok (a, rest')) /\
      (forall n, (n < length used)%nat ->
                 D (firstn n used) = Err TruncatedInput).

(** The errors the codec itself raises. *)
Definition codec_error (e : DecodeError) : Prop :=
  e = TruncatedInput \/ e = InvalidEnumValue.

Definition raises_only {A} (P : DecodeError -> Prop) (D : Decoder A) : Prop :=
  forall c e, D c = Err e -> P e.

(** Every value a decoder returns satisfies [P]. *)
Definition returns_only {A} (P : A -> Prop) (D : Decoder A) : Prop :=
  forall c a rest, D c = Ok (a, rest) -> P a.

(** ** Constructible values and lawful codecs *)

(** The bytes [serialize] appends for [a]. *)
Definition encode {T} `{XdrTrait T} (a : T) : list byte := serialize [] a.

(** The values of a message type that the wire format can carry: words
    below [2 ^ 32], variable-length data whose length is such a word, and
    unions whose slot holds the payload their tag selects. *)
Class Constructible (T : Type) : Type := { constructible : T -> Prop }.

Class XdrLawful (T : Type) `{XdrTrait T} `{Constructible T} : Prop := {
  serialize_encode :
    forall q (a : T), serialize q a = q ++ encode a;
  deserialize_encode :
    forall (a : T) rest,
      constructible a -> deserialize (encode a ++ rest) = Ok (a, rest);
  deserialize_prefix_safe :
    prefix_safe (deserialize (T := T));
  deserialize_raises :
    raises_only codec_error (deserialize (T := T));
  deserialize_returns :
    returns_only constructible (deserialize (T := T))
}.

#[export] Instance Constructible_uint32_t : Constructible uint32_t :=
  {| constructible := u32_ok |}.

Class XdrEnumLawful (E : Type) `{XdrEnum E} : Prop := {
  of_ordinal_ordinal : forall e : E, of_ordinal (ordinal e) = Some e;
  ordinal_of_ordinal :
    forall n (e : E), of_ordinal n = Some e -> ordinal e = n;
  ordinal_u32 : forall e : E, u32_ok (ordinal e)
}.

#[export] Instance Constructible_enum {E} `{XdrEnum E} : Constructible E :=
  {| constructible := fun _ => True |}.

#[export] Instance Constructible_OpaqueBytes : Constructible OpaqueBytes :=
  {| constructible := fun data => u32_ok (N.of_nat (length data)) |}.

#[export] Instance Constructible_string : Constructible String.string :=
  {| constructible := fun s =>
       u32_ok (N.of_nat (length (String.list_byte_of_string s))) |}.

#[export] Instance Constructible_vector_uint32_t
    : Constructible (list uint32_t) :=
  {| constructible := fun l =>
       u32_ok (N.of_nat (length l)) /\ Forall u32_ok l |}.

#[export] Instance Constructible_opaque_auth : Constructible opaque_auth :=
  {| constructible := fun a =>
       constructible (flavor a) /\ constructible (body a) |}.

#[export] Instance Constructible_call_body : Constructible call_body :=
  {| constructible := fun a =>
       constructible (rpcvers a) /\ constructible (prog a)
       /\ constructible (vers a) /\ constructible (proc a)
       /\ constructible (cred a) /\ constructible (verf a) |}.

#[export] Instance Constructible_rpc_msg_call : Constructible rpc_msg_call :=
  {| constructible := fun a =>
       constructible (xid a) /\ constructible (mtype a)
       /\ constructible (cbody a) |}.

#[export] Instance Constructible_mismatch_info : Constructible mismatch_info :=
  {| constructible := fun a =>
       constructible (low a) /\ constructible (high a) |}.

#[export] Instance Constructible_accepted_reply
    : Constructible accepted_reply :=
  {| constructible := fun a =>
       constructible (ar_verf a) /\ constructible (stat a) |}.

#[export] Instance Constructible_authsys_parms : Constructible authsys_parms :=
  {| constructible := fun a =>
       constructible (stamp a) /\ constructible (machinename a)
       /\ constructible (uid a) /\ constructible (gid a)
       /\ constructible (gids a) |}.

(** The slot of a [rejected_reply] holds the payload its tag selects. *)
Definition rejected_reply_consistent (r : rejected_reply) : bool :=
  match tag r, v r with
  | RPC_MISMATCH, alt0 _ => true
  | AUTH_ERROR, alt1 _ => true
  | _, _ => false
  end.

(** The slot of a [reply_body] holds the payload its tag selects, and a
    [rejected_reply] held there is consistent in turn. *)
Definition reply_body_consistent (b : reply_body) : bool :=
  match tag b, v b with
  | MSG_ACCEPTED, alt0 _ => true
  | MSG_DENIED, alt1 r => rejected_reply_consistent r
  | _, _ => false
  end.

#[export] Instance Constructible_rejected_reply
    : Constructible rejected_reply :=
  {| constructible := fun r =>
       match tag r, v r with
       | RPC_MISMATCH, alt0 m => constructible m
       | AUTH_ERROR, alt1 s => constructible s
       | _, _ => False
       end |}.

#[export] Instance Constructible_reply_body : Constructible reply_body :=
  {| constructible := fun b =>
       match tag b, v b with
       | MSG_ACCEPTED, alt0 a => constructible a
       | MSG_DENIED, alt1 r => constructible r
       | _, _ => False
       end |}.

#[export] Instance Constructible_rpc_msg_reply : Constructible rpc_msg_reply :=
  {| constructible := fun a =>
       constructible (rmr_xid a) /\ constructible (rmr_mtype a)
       /\ constructible (rbody a) |}.

(** [==] decides equality of values. *)
Class EqLawful (T : Type) `{EqOp T} : Prop := {
  eq_op_iff : forall a b : T, (a == b) = true <-> a = b
}.

(** ** The message model as a family

    The nine message types of Rpc.h that carry an [XdrTrait]
    specialisation and an [operator==]. *)

Inductive message_model : Type :=
| M_opaque_auth
| M_call_body
| M_rpc_msg_call
| M_mismatch_info
| M_accepted_reply
| M_rejected_reply
| M_reply_body
| M_rpc_msg_reply
| M_authsys_parms.

Definition carrier (m : message_model) : Type :=
  match m with
  | M_opaque_auth => opaque_auth
  | M_call_body => call_body
  | M_rpc_msg_call => rpc_msg_call
  | M_mismatch_info => mismatch_info
  | M_accepted_reply => accepted_reply
  | M_rejected_reply => rejected_reply
  | M_reply_body => reply_body
  | M_rpc_msg_reply => rpc_msg_reply
  | M_authsys_parms => authsys_parms
  end.

Definition model_trait (m : message_model) : XdrTrait (carrier m) :=
  match m with
  | M_opaque_auth => XdrTrait_opaque_auth
  | M_call_body => XdrTrait_call_body
  | M_rpc_msg_call => XdrTrait_rpc_msg_call
  | M_mismatch_info => XdrTrait_mismatch_info
  | M_accepted_reply => XdrTrait_accepted_reply
  | M_rejected_reply => XdrTrait_rejected_reply
  | M_reply_body => XdrTrait_reply_body
  | M_rpc_msg_reply => XdrTrait_rpc_msg_reply
  | M_authsys_parms => XdrTrait_authsys_parms
  end.

Definition model_constructible (m : message_model)
    : Constructible (carrier m) :=
  match m with
  | M_opaque_auth => Constructible_opaque_auth
  | M_call_body => Constructible_call_body
  | M_rpc_msg_call => Constructible_rpc_msg_call
  | M_mismatch_info => Constructible_mismatch_info
  | M_accepted_reply => Constructible_accepted_reply
  | M_rejected_reply => Constructible_rejected_reply
  | M_reply_body => Constructible_reply_body
  | M_rpc_msg_reply => Constructible_rpc_msg_reply
  | M_authsys_parms => Constructible_authsys_parms
  end.

Definition model_eq (m : message_model) : EqOp (carrier m) :=
  match m with
  | M_opaque_auth => EqOp_opaque_auth
  | M_call_body => EqOp_call_body
  | M_rpc_msg_call => EqOp_rpc_msg_call
  | M_mismatch_info => EqOp_mismatch_info
  | M_accepted_reply => EqOp_accepted_reply
  | M_rejected_reply => EqOp_rejected_reply
  | M_reply_body => EqOp_reply_body
  | M_rpc_msg_reply => EqOp_rpc_msg_reply
  | M_authsys_parms => EqOp_authsys_parms
  end.

(** [XdrTrait<T>::deserialize], [XdrTrait<T>::serialize] on an empty sink
    and [operator==] of the message type [m]. *)
Definition decode (m : message_model) : Decoder (carrier m) :=
  @deserialize _ (model_trait m).

Definition encode_model (m : message_model) (a : carrier m) : list byte :=
  @encode _ (model_trait m) a.

Definition equal (m : message_model) (a b : carrier m) : bool :=
  @eq_op _ (model_eq m) a b.

Definition is_constructible (m : message_model) (a : carrier m) : Prop :=
  @constructible _ (model_constructible m) a.

(** The fields assigned by [deserialize], in order, each as the cursor
    movement of its decoder.  For a field-list structure they are the
    fields named in its [EDEN_XDR_SERDE_DECL]; for a union they are the
    tag and the payload that the switch on the decoded tag selects (the
    tag is read from the cursor [c] at which the union starts). *)
Definition step : Type := Cursor -> result Cursor.

Definition field (T : Type) `{XdrTrait T} : step :=
  fun c =>
    match deserialize (T := T) c with
    | Ok (_, c') => Ok c'
    | Err e => Err e
    end.

Definition fields (m : message_model) (c : Cursor) : list step :=
  match m with
  | M_opaque_auth => [field auth_flavor; field OpaqueBytes]
  | M_call_body =>
      [field uint32_t; field uint32_t; field uint32_t; field uint32_t;
       field opaque_auth; field opaque_auth]
  | M_rpc_msg_call => [field uint32_t; field msg_type; field call_body]
  | M_mismatch_info => [field uint32_t; field uint32_t]
  | M_accepted_reply => [field opaque_auth; field accept_stat]
  | M_rejected_reply =>
      field reject_stat ::
      match deserialize (T := reject_stat) c with
      | Ok (RPC_MISMATCH, _) => [field mismatch_info]
      | Ok (AUTH_ERROR, _) => [field auth_stat]
      | Err _ => []
      end
  | M_reply_body =>
      field reply_stat ::
      match deserialize (T := reply_stat) c with
      | Ok (MSG_ACCEPTED, _) => [field accepted_reply]
      | Ok (MSG_DENIED, _) => [field rejected_reply]
      | Err _ => []
      end
  | M_rpc_msg_reply => [field uint32_t; field msg_type; field reply_body]
  | M_authsys_parms =>
      [field uint32_t; field String.string; field uint32_t; field uint32_t;
       field (list uint32_t)]
  end.

(** Decoding the fields one after the other, stopping at the first that
    raises. *)
Fixpoint run_fields (fs : list step) (c : Cursor) : result Cursor :=
  match fs with
  | [] => Ok c
  | f :: fs' =>
      match f c with
      | Ok c' => run_fields fs' c'
      | Err e => Err e
      end
  end.

(** The comparisons [operator==] conjoins, in order. *)
Definition field_eqs (m : message_model) : carrier m -> carrier m -> list bool :=
  match m with
  | M_opaque_auth => fun a b => [flavor a == flavor b; body a == body b]
  | M_call_body => fun a b =>
      [rpcvers a == rpcvers b; prog a == prog b; vers a == vers b;
       proc a == proc b; cred a == cred b; verf a == verf b]
  | M_rpc_msg_call => fun a b =>
      [xid a == xid b; mtype a == mtype b; cbody a == cbody b]
  | M_mismatch_info => fun a b => [low a == low b; high a == high b]
  | M_accepted_reply => fun a b => [ar_verf a == ar_verf b; stat a == stat b]
  | M_rejected_reply => fun a b => [tag a == tag b; v a == v b]
  | M_reply_body => fun a b => [tag a == tag b; v a == v b]
  | M_rpc_msg_reply => fun a b =>
      [rmr_xid a == rmr_xid b; rmr_mtype a == rmr_mtype b;
       rbody a == rbody b]
  | M_authsys_parms => fun a b =>
      [stamp a == stamp b; machinename a == machinename b; uid a == uid b;
       gid a == gid b; gids a == gids b]
  end.

(** ** Sample values and buffers *)

(** A buffer of three words whose first word, 2, is no declared
    discriminant. *)
Definition unknown_tag_buffer : Cursor :=
  be32_bytes 2 ++ be32_bytes 2 ++ be32_bytes 4.

(** Scenario A: an NFS version 3 null call with empty [AUTH_NONE]
    credential and verifier. *)
Definition scenario_A : call_body :=
  {| rpcvers := 2; prog := 100003; vers := 3; proc := 0;
     cred := {| flavor := AUTH_NONE; body := [] |};
     verf := {| flavor := AUTH_NONE; body := [] |} |}.

(** A reply denied for a version mismatch, supported versions 2 to 4. *)
Definition sample_reply : rpc_msg_reply :=
  {| rmr_xid := 7; rmr_mtype := REPLY;
     rbody := {| tag := MSG_DENIED;
                 v := alt1 {| tag := RPC_MISMATCH;
                              v := alt0 {| low := 2; high := 4 |} |} |} |}.

(** A union filled by hand with the payload of the other tag. *)
Definition mismatched_reply : rejected_reply :=
  {| tag := RPC_MISMATCH; v := alt1 AUTH_OK |}.

(** A union whose tag is set and whose slot was never filled, as a
    default-constructed one is. *)
Definition unset_reply_body : reply_body :=
  {| tag := MSG_ACCEPTED; v := monostate |}.

(** The call body [a] with its [rpcvers] replaced by [r]. *)
Definition set_rpcvers (r : uint32_t) (a : call_body) : call_body :=
  {| rpcvers := r; prog := prog a; vers := vers a; proc := proc a;
     cred := cred a; verf := verf a |}.

(** An [rpc_msg_reply] whose [mtype] word is 9. *)
Definition bad_mtype_buffer : Cursor :=
  be32_bytes 7 ++ be32_bytes 9 ++ be32_bytes 0.

(** The enumeration [E] declares exactly the listed ordinals: a word is
    the ordinal of some value of [E] exactly when it is in the list. *)
Definition declares (E : Type) `{XdrEnum E} (ordinals : list uint32_t) : Prop :=
  forall n : uint32_t, (exists e : E, ordinal e = n) <-> In n ordinals.

(** ** Vocabulary of the wire layout *)

(** The encodings of the fields [serialize] writes, in the order it writes
    them: for a field-list structure the fields named in its
    [EDEN_XDR_SERDE_DECL], for a union the tag and the payload held in the
    slot. *)
Definition field_encodings (m : message_model) : carrier m -> list (list byte) :=
  match m with
  | M_opaque_auth => fun a => [encode (flavor a); encode (body a)]
  | M_call_body => fun a =>
      [encode (rpcvers a); encode (prog a); encode (vers a);
       encode (proc a); encode (cred a); encode (verf a)]
  | M_rpc_msg_call => fun a =>
      [encode (xid a); encode (mtype a); encode (cbody a)]
  | M_mismatch_info => fun a => [encode (low a); encode (high a)]
  | M_accepted_reply => fun a => [encode (ar_verf a); encode (stat a)]
  | M_rejected_reply => fun a =>
      [encode (tag a);
       match v a with
       | monostate => []
       | alt0 x => encode x
       | alt1 y => encode y
       end]
  | M_reply_body => fun a =>
      [encode (tag a);
       match v a with
       | monostate => []
       | alt0 x => encode x
       | alt1 y => encode y
       end]
  | M_rpc_msg_reply => fun a =>
      [encode (rmr_xid a); encode (rmr_mtype a); encode (rbody a)]
  | M_authsys_parms => fun a =>
      [encode (stamp a); encode (machinename a); encode (uid a);
       encode (gid a); encode (gids a)]
  end.

(** The number of bytes variable-length data of [n] bytes takes after its
    length word: the data and its padding. *)
Definition padded (n : nat) : N := N.of_nat n + pad (N.of_nat n).

(** The encoding of every value of [T] is a whole number of 4-byte
    words. *)
Class XdrAligned (T : Type) `{XdrTrait T} : Prop := {
  encode_aligned : forall a : T, (length (encode a) mod 4 = 0)%nat
}.

(** A successful [deserialize] consumed as many bytes as [serialize]
    writes for the value it returned. *)
Class XdrConsumes (T : Type) `{XdrTrait T} : Prop := {
  deserialize_consumes :
    forall (c : Cursor) (a : T) (rest : Cursor),
      deserialize c = Ok (a, rest) ->
      length c = (length (encode a) + length rest)%nat
}.

(** The only error is running out of input. *)
Definition truncation_only (e : DecodeError) : Prop := e = TruncatedInput.

(** The message [a] with its [mtype] replaced by [t]. *)
Definition set_mtype (t : msg_type) (a : rpc_msg_call) : rpc_msg_call :=
  {| xid := xid a; mtype := t; cbody := cbody a |}.

Definition set_rmr_mtype (t : msg_type) (a : rpc_msg_reply) : rpc_msg_reply :=
  {| rmr_xid := rmr_xid a; rmr_mtype := t; rbody := rbody a |}.


(** * Properties *)

(** ** Bytes and words *)

Lemma to_N_byte_of_N (n : N) : Byte.to_N (byte_of_N n) = n mod 256.
Proof.
  unfold byte_of_N.
  destruct (Byte.of_N (n mod 256)) as [b|] eqn:E.
  - now apply Byte.to_of_N.
  - apply Byte.of_N_None_iff in E.
    pose proof (N.mod_upper_bound n 256). lia.
Qed.

Lemma byte_of_N_to_N (b : byte) : byte_of_N (Byte.to_N b) = b.
Proof.
  unfold byte_of_N.
  pose proof (Byte.to_N_bounded b).
  rewrite N.mod_small by lia.
  now rewrite Byte.of_to_N.
Qed.

Lemma to_N_inj (a b : byte) : Byte.to_N a = Byte.to_N b -> a = b.
Proof.
  intros H. rewrite <- (byte_of_N_to_N a), <- (byte_of_N_to_N b).
  now rewrite H.
Qed.

Lemma be32_lt (b0 b1 b2 b3 : byte) : u32_ok (be32 b0 b1 b2 b3).
Proof.
  unfold u32_ok, be32.
  pose proof (Byte.to_N_bounded b0). pose proof (Byte.to_N_bounded b1).
  pose proof (Byte.to_N_bounded b2). pose proof (Byte.to_N_bounded b3).
  change (2 ^ 24) with 16777216. change (2 ^ 16) with 65536.
  change (2 ^ 8) with 256. change (2 ^ 32) with 4294967296.
  lia.
Qed.

Lemma be32_of_bytes (x : uint32_t) :
  u32_ok x ->
  be32 (byte_of_N (x / 2 ^ 24)) (byte_of_N (x / 2 ^ 16))
       (byte_of_N (x / 2 ^ 8)) (byte_of_N x) = x.
Proof.
  unfold u32_ok, be32. intros Hx.
  rewrite !to_N_byte_of_N.
  change (2 ^ 24) with (256 * 256 * 256). change (2 ^ 16) with (256 * 256).
  change (2 ^ 8) with 256. change (2 ^ 32) with 4294967296 in Hx.
  rewrite <- !N.Div0.div_div.
  pose proof (N.div_mod x 256). pose proof (N.mod_upper_bound x 256).
  pose proof (N.div_mod (x / 256) 256).
  pose proof (N.mod_upper_bound (x / 256) 256).
  pose proof (N.div_mod (x / 256 / 256) 256).
  pose proof (N.mod_upper_bound (x / 256 / 256) 256).
  assert (x / 256 / 256 / 256 < 256)
    by (rewrite !N.Div0.div_div; apply N.Div0.div_lt_upper_bound; lia).
  rewrite (N.mod_small (x / 256 / 256 / 256)) by assumption.
  generalize dependent (x / 256 / 256 / 256).
  generalize dependent (x / 256 / 256 mod 256).
  generalize dependent (x / 256 / 256).
  generalize dependent (x / 256 mod 256).
  generalize dependent (x / 256).
  generalize dependent (x mod 256).
  intros. lia.
Qed.

Lemma length_be32_bytes (x : uint32_t) : length (be32_bytes x) = 4%nat.
Proof. reflexivity. Qed.

Lemma pad_lt (len : N) : pad len < 4.
Proof. unfold pad. apply N.mod_upper_bound. lia. Qed.

Lemma pad_aligned (len : N) : (len + pad len) mod 4 = 0.
Proof.
  unfold pad. rewrite N.Div0.add_mod, N.Div0.mod_mod.
  assert (len mod 4 < 4) as Hlt by (apply N.mod_upper_bound; discriminate).
  generalize dependent (len mod 4). intros r Hlt.
  assert (r = 0 \/ r = 1 \/ r = 2 \/ r = 3) as [E|[E|[E|E]]] by lia;
    rewrite E; reflexivity.
Qed.

(** ** The decoding monad *)

Lemma bind_Ok {A B} (m : Decoder A) (k : A -> Decoder B) c a c' :
  m c = Ok (a, c') -> bind m k c = k a c'.
Proof. unfold bind. now intros ->. Qed.

Lemma bind_Err {A B} (m : Decoder A) (k : A -> Decoder B) c e :
  m c = Err e -> bind m k c = Err e.
Proof. unfold bind. now intros ->. Qed.

Lemma bind_Ok_inv {A B} (m : Decoder A) (k : A -> Decoder B) c b c'' :
  bind m k c = Ok (b, c'') ->
  exists a c', m c = Ok (a, c') /\ k a c' = Ok (b, c'').
Proof.
  unfold bind. destruct (m c) as [[a c']|e]; [eauto | discriminate].
Qed.

Lemma bind_Err_inv {A B} (m : Decoder A) (k : A -> Decoder B) c e :
  bind m k c = Err e ->
  m c = Err e \/ exists a c', m c = Ok (a, c') /\ k a c' = Err e.
Proof.
  unfold bind. destruct (m c) as [[a c']|e']; [eauto | intros [= ->]; auto].
Qed.

Lemma prefix_safe_ret {A} (a : A) : prefix_safe (ret a).
Proof.
  intros c a' rest [= <- <-]. exists []. repeat split.
  simpl. intros n Hn. lia.
Qed.

Lemma prefix_safe_raise {A} e : prefix_safe (@raise A e).
Proof. intros c a rest [=]. Qed.

Lemma prefix_safe_bind {A B} (m : Decoder A) (k : A -> Decoder B) :
  prefix_safe m -> (forall a, prefix_safe (k a)) -> prefix_safe (bind m k).
Proof.
  intros Hm Hk c b rest Hrun.
  apply bind_Ok_inv in Hrun as (a & mid & Hm1 & Hk1).
  destruct (Hm _ _ _ Hm1) as (u1 & -> & Hfr1 & Htr1).
  destruct (Hk _ _ _ _ Hk1) as (u2 & -> & Hfr2 & Htr2).
  exists (u1 ++ u2). split; [now rewrite app_assoc|]. split.
  - intros rest'. rewrite <- app_assoc.
    rewrite (bind_Ok _ _ _ _ _ (Hfr1 _)). apply Hfr2.
  - intros n Hn. rewrite length_app in Hn.
    rewrite firstn_app.
    destruct (Nat.lt_ge_cases n (length u1)) as [Hlt|Hge].
    + replace (n - length u1)%nat with 0%nat by lia.
      rewrite firstn_O, app_nil_r.
      apply bind_Err. now apply Htr1.
    + rewrite firstn_all2 by lia.
      rewrite (bind_Ok _ _ _ _ _ (Hfr1 _)). apply Htr2. lia.
Qed.

Lemma raises_only_ret {A} P (a : A) : raises_only P (ret a).
Proof. intros c e [=]. Qed.

Lemma raises_only_raise {A} (P : DecodeError -> Prop) e :
  P e -> raises_only P (@raise A e).
Proof. intros H c e' [= <-]. exact H. Qed.

Lemma raises_only_bind {A B} P (m : Decoder A) (k : A -> Decoder B) :
  raises_only P m -> (forall a, raises_only P (k a)) ->
  raises_only P (bind m k).
Proof.
  intros Hm Hk c e Hrun.
  apply bind_Err_inv in Hrun as [H|(a & c' & _ & H)].
  - exact (Hm _ _ H).
  - exact (Hk _ _ _ H).
Qed.

Lemma returns_only_ret {A} (P : A -> Prop) a : P a -> returns_only P (ret a).
Proof. intros H c a' rest [= <- _]. exact H. Qed.

Lemma returns_only_raise {A} (P : A -> Prop) e : returns_only P (raise e).
Proof. intros c a rest [=]. Qed.

Lemma returns_only_bind {A B} (P : A -> Prop) (Q : B -> Prop)
    (m : Decoder A) (k : A -> Decoder B) :
  returns_only P m -> (forall a, P a -> returns_only Q (k a)) ->
  returns_only Q (bind m k).
Proof.
  intros Hm Hk c b rest Hrun.
  apply bind_Ok_inv in Hrun as (a & c' & H1 & H2).
  eapply Hk; eauto.
Qed.

(** ** Lawful codecs *)

Lemma deserialize_uint32_t_short (c : Cursor) :
  (length c < 4)%nat -> deserialize (T := uint32_t) c = Err TruncatedInput.
Proof.
  destruct c as [|b0 [|b1 [|b2 [|b3 c]]]]; simpl; intros; try reflexivity; lia.
Qed.

Lemma deserialize_uint32_t_Ok (c : Cursor) x rest :
  deserialize (T := uint32_t) c = Ok (x, rest) ->
  exists b0 b1 b2 b3, c = b0 :: b1 :: b2 :: b3 :: rest /\ x = be32 b0 b1 b2 b3.
Proof.
  destruct c as [|b0 [|b1 [|b2 [|b3 c]]]]; simpl; intros [=]; subst.
  now exists b0, b1, b2, b3.
Qed.

#[export] Instance XdrLawful_uint32_t : XdrLawful uint32_t.
Proof.
  split.
  - intros q a. reflexivity.
  - intros a rest Ha. unfold encode. simpl. now rewrite be32_of_bytes.
  - intros c a rest H.
    apply deserialize_uint32_t_Ok in H as (b0 & b1 & b2 & b3 & -> & ->).
    exists [b0; b1; b2; b3]. repeat split.
    intros n Hn. apply deserialize_uint32_t_short.
    rewrite length_firstn. simpl in *. lia.
  - intros c e H. left.
    destruct c as [|b0 [|b1 [|b2 [|b3 c]]]]; simpl in H; congruence.
  - intros c a rest H.
    apply deserialize_uint32_t_Ok in H as (b0 & b1 & b2 & b3 & -> & ->).
    apply be32_lt.
Qed.

(** *** Enumerations *)

Ltac enum_cases n :=
  destruct n as [|p]; [|do 4 (try destruct p as [p|p|])].

#[export] Instance XdrEnumLawful_auth_flavor : XdrEnumLawful auth_flavor.
Proof.
  split.
  - intros []; reflexivity.
  - intros n e. enum_cases n; simpl; intros [= <-]; reflexivity.
  - intros []; reflexivity.
Qed.

#[export] Instance XdrEnumLawful_msg_type : XdrEnumLawful msg_type.
Proof.
  split.
  - intros []; reflexivity.
  - intros n e. enum_cases n; simpl; intros [= <-]; reflexivity.
  - intros []; reflexivity.
Qed.

#[export] Instance XdrEnumLawful_reply_stat : XdrEnumLawful reply_stat.
Proof.
  split.
  - intros []; reflexivity.
  - intros n e. enum_cases n; simpl; intros [= <-]; reflexivity.
  - intros []; reflexivity.
Qed.

#[export] Instance XdrEnumLawful_accept_stat : XdrEnumLawful accept_stat.
Proof.
  split.
  - intros []; reflexivity.
  - intros n e. enum_cases n; simpl; intros [= <-]; reflexivity.
  - intros []; reflexivity.
Qed.

#[export] Instance XdrEnumLawful_reject_stat : XdrEnumLawful reject_stat.
Proof.
  split.
  - intros []; reflexivity.
  - intros n e. enum_cases n; simpl; intros [= <-]; reflexivity.
  - intros []; reflexivity.
Qed.

#[export] Instance XdrEnumLawful_auth_stat : XdrEnumLawful auth_stat.
Proof.
  split.
  - intros []; reflexivity.
  - intros n e. enum_cases n; simpl; intros [= <-]; reflexivity.
  - intros []; reflexivity.
Qed.

Lemma deserialize_enum_unfold {E} `{XdrEnum E} :
  deserialize (T := E) =
  (n <- deserialize (T := uint32_t) ;;
   match of_ordinal n with
   | Some e => ret e
   | None => raise InvalidEnumValue
   end).
Proof. reflexivity. Qed.

#[export] Instance XdrLawful_enum {E} `{XdrEnumLawful E} : XdrLawful E.
Proof.
  split.
  - intros q a. reflexivity.
  - intros a rest _. rewrite deserialize_enum_unfold.
    change (encode a) with (encode (ordinal a)).
    erewrite bind_Ok by (apply deserialize_encode, ordinal_u32).
    now rewrite of_ordinal_ordinal.
  - rewrite deserialize_enum_unfold.
    apply prefix_safe_bind; [apply deserialize_prefix_safe|].
    intros n. destruct (of_ordinal n).
    + apply prefix_safe_ret.
    + apply prefix_safe_raise.
  - rewrite deserialize_enum_unfold.
    apply raises_only_bind; [apply deserialize_raises|].
    intros n. destruct (of_ordinal n).
    + apply raises_only_ret.
    + apply raises_only_raise. now right.
  - intros c a rest _. exact I.
Qed.

(** *** Variable-length opaque data and strings *)

Lemma read_padded_Ok (len : N) (c : Cursor) data rest :
  read_padded len c = Ok (data, rest) ->
  len + pad len <= N.of_nat (length c) /\
  data = firstn (N.to_nat len) c /\
  rest = skipn (N.to_nat (len + pad len)) c.
Proof.
  unfold read_padded.
  destruct (N.ltb_spec (N.of_nat (length c)) (len + pad len));
    [discriminate|].
  intros [= <- <-]. auto.
Qed.

Lemma read_padded_short (len : N) (c : Cursor) :
  N.of_nat (length c) < len + pad len ->
  read_padded len c = Err TruncatedInput.
Proof.
  unfold read_padded. intros H.
  destruct (N.ltb_spec (N.of_nat (length c)) (len + pad len)); [reflexivity|].
  lia.
Qed.

Lemma read_padded_exact (data padding rest : list byte) :
  N.of_nat (length padding) = pad (N.of_nat (length data)) ->
  read_padded (N.of_nat (length data)) (data ++ padding ++ rest)
  = Ok (data, rest).
Proof.
  intros Hp. unfold read_padded.
  rewrite <- Hp, <- Nat2N.inj_add, Nat2N.id.
  destruct (N.ltb_spec (N.of_nat (length (data ++ padding ++ rest)))
                       (N.of_nat (length data + length padding))) as [Hlt|_].
  - rewrite !length_app in Hlt. lia.
  - rewrite Nat2N.id. f_equal. f_equal.
    + rewrite firstn_app, Nat.sub_diag, firstn_O, app_nil_r.
      apply firstn_all.
    + rewrite app_assoc, skipn_app, <- length_app, skipn_all, Nat.sub_diag.
      reflexivity.
Qed.

Lemma prefix_safe_read_padded (len : N) : prefix_safe (read_padded len).
Proof.
  intros c data rest H.
  apply read_padded_Ok in H as (Hlen & -> & ->).
  set (k := N.to_nat (len + pad len)).
  assert (Hk : (k <= length c)%nat) by lia.
  exists (firstn k c). split; [now rewrite firstn_skipn|].
  assert (Hfl : length (firstn k c) = k) by (rewrite length_firstn; lia).
  split.
  - intros rest'. unfold read_padded.
    destruct (N.ltb_spec (N.of_nat (length (firstn k c ++ rest')))
                         (len + pad len)) as [Hlt|_].
    + rewrite length_app, Hfl in Hlt. lia.
    + fold k. f_equal. f_equal.
      * rewrite firstn_app, Hfl.
        replace (N.to_nat len - k)%nat with 0%nat by lia.
        rewrite firstn_O, app_nil_r, firstn_firstn.
        f_equal. lia.
      * rewrite skipn_app, Hfl, Nat.sub_diag.
        rewrite <- Hfl at 1. now rewrite skipn_all.
  - intros n Hn. apply read_padded_short.
    rewrite length_firstn. lia.
Qed.

Lemma raises_only_read_padded (len : N) :
  raises_only codec_error (read_padded len).
Proof.
  intros c e. unfold read_padded.
  destruct (N.of_nat (length c) <? len + pad len); intros [= <-]. now left.
Qed.

Lemma returns_only_read_padded (len : N) :
  returns_only (fun data => N.of_nat (length data) <= len) (read_padded len).
Proof.
  intros c data rest H. apply read_padded_Ok in H as (_ & -> & _).
  rewrite length_firstn. lia.
Qed.

Lemma deserialize_variable_encode (data rest : list byte) :
  u32_ok (N.of_nat (length data)) ->
  deserialize_variable (serialize_variable [] data ++ rest) = Ok (data, rest).
Proof.
  intros Hlen. unfold deserialize_variable, serialize_variable.
  rewrite serialize_encode, app_nil_l, <- !app_assoc.
  erewrite bind_Ok by (apply deserialize_encode; exact Hlen).
  apply read_padded_exact.
  now rewrite repeat_length, N2Nat.id.
Qed.

Lemma prefix_safe_deserialize_variable : prefix_safe deserialize_variable.
Proof.
  apply prefix_safe_bind; [apply deserialize_prefix_safe|].
  apply prefix_safe_read_padded.
Qed.

Lemma raises_only_deserialize_variable :
  raises_only codec_error deserialize_variable.
Proof.
  apply raises_only_bind; [apply deserialize_raises|].
  apply raises_only_read_padded.
Qed.

Lemma returns_only_deserialize_variable :
  returns_only (fun data => u32_ok (N.of_nat (length data)))
               deserialize_variable.
Proof.
  eapply returns_only_bind; [apply deserialize_returns|].
  intros len Hlen c data rest H.
  apply returns_only_read_padded in H.
  simpl in Hlen. unfold u32_ok in *. lia.
Qed.

#[export] Instance XdrLawful_OpaqueBytes : XdrLawful OpaqueBytes.
Proof.
  split.
  - intros q a. unfold encode. simpl. unfold serialize_variable.
    rewrite (serialize_encode q), (serialize_encode []).
    now rewrite <- !app_assoc.
  - intros a rest Ha. apply deserialize_variable_encode. exact Ha.
  - apply prefix_safe_deserialize_variable.
  - apply raises_only_deserialize_variable.
  - apply returns_only_deserialize_variable.
Qed.

#[export] Instance XdrLawful_string : XdrLawful String.string.
Proof.
  split.
  - intros q a. unfold encode. simpl. unfold serialize_variable.
    rewrite (serialize_encode q), (serialize_encode []).
    now rewrite <- !app_assoc.
  - intros a rest Ha. unfold encode. simpl.
    erewrite bind_Ok by (apply deserialize_variable_encode; exact Ha).
    unfold ret. now rewrite String.string_of_list_byte_of_string.
  - simpl. apply prefix_safe_bind; [apply prefix_safe_deserialize_variable|].
    intros data. apply prefix_safe_ret.
  - simpl. apply raises_only_bind; [apply raises_only_deserialize_variable|].
    intros data. apply raises_only_ret.
  - simpl.
    eapply returns_only_bind; [apply returns_only_deserialize_variable|].
    intros data Hlen. apply returns_only_ret. simpl.
    now rewrite String.list_byte_of_string_of_list_byte.
Qed.

(** *** Sequences *)

Section Elements.
Context {T : Type} `{XdrLawful T}.

Lemma serialize_elements_encode (l : list T) : forall q,
  serialize_elements q l = q ++ serialize_elements [] l.
Proof.
  induction l as [|x l IH]; intros q; simpl.
  - now rewrite app_nil_r.
  - rewrite (IH (serialize q x)), (IH (serialize [] x)).
    rewrite (serialize_encode q), (serialize_encode []).
    now rewrite <- !app_assoc.
Qed.

Lemma deserialize_elements_encode (l : list T) rest :
  Forall constructible l ->
  deserialize_elements (length l) (serialize_elements [] l ++ rest)
  = Ok (l, rest).
Proof.
  induction 1 as [|x l Hx Hl IH]; simpl; [reflexivity|].
  rewrite serialize_elements_encode, serialize_encode, app_nil_l.
  rewrite <- app_assoc.
  erewrite bind_Ok by (apply deserialize_encode; exact Hx).
  erewrite bind_Ok by exact IH.
  reflexivity.
Qed.

Lemma prefix_safe_deserialize_elements (n : nat) :
  prefix_safe (deserialize_elements (T := T) n).
Proof.
  induction n as [|n IH]; simpl.
  - apply prefix_safe_ret.
  - apply prefix_safe_bind; [apply deserialize_prefix_safe|]. intros x.
    apply prefix_safe_bind; [exact IH|]. intros l.
    apply prefix_safe_ret.
Qed.

Lemma raises_only_deserialize_elements (n : nat) :
  raises_only codec_error (deserialize_elements (T := T) n).
Proof.
  induction n as [|n IH]; simpl.
  - apply raises_only_ret.
  - apply raises_only_bind; [apply deserialize_raises|]. intros x.
    apply raises_only_bind; [exact IH|]. intros l.
    apply raises_only_ret.
Qed.

Lemma returns_only_deserialize_elements (n : nat) :
  returns_only (fun l => length l = n /\ Forall constructible l)
               (deserialize_elements (T := T) n).
Proof.
  induction n as [|n IH]; simpl.
  - apply returns_only_ret. auto.
  - eapply returns_only_bind; [apply deserialize_returns|]. intros x Hx.
    eapply returns_only_bind; [exact IH|]. intros l [Hlen Hl].
    apply returns_only_ret. simpl. auto.
Qed.
End Elements.

#[export] Instance XdrLawful_vector_uint32_t : XdrLawful (list uint32_t).
Proof.
  split.
  - intros q a. unfold encode. simpl.
    rewrite (serialize_elements_encode a (q ++ _)).
    rewrite (serialize_elements_encode a (be32_bytes _)).
    now rewrite <- !app_assoc.
  - intros a rest [Hlen Ha]. unfold encode.
    change (serialize [] a)
      with (serialize_elements (encode (N.of_nat (length a))) a).
    rewrite serialize_elements_encode, <- app_assoc.
    cbn [deserialize XdrTrait_vector_uint32_t].
    erewrite bind_Ok
      by (apply (deserialize_encode (T := uint32_t)); exact Hlen).
    rewrite Nat2N.id. now apply deserialize_elements_encode.
  - cbn [deserialize XdrTrait_vector_uint32_t].
    apply prefix_safe_bind; [apply deserialize_prefix_safe|].
    intros n. apply prefix_safe_deserialize_elements.
  - cbn [deserialize XdrTrait_vector_uint32_t].
    apply raises_only_bind; [apply deserialize_raises|].
    intros n. apply raises_only_deserialize_elements.
  - cbn [deserialize XdrTrait_vector_uint32_t].
    eapply returns_only_bind; [apply deserialize_returns|].
    intros n Hn c l rest Hrun.
    apply returns_only_deserialize_elements in Hrun as [Hlen Hl].
    simpl in *. split; [|exact Hl].
    now rewrite Hlen, N2Nat.id.
Qed.

(** *** Field-list structures *)

Ltac split_constructible H :=
  repeat match type of H with
         | _ /\ _ => let H1 := fresh "Hc" in destruct H as [H1 H]
         end.

Ltac struct_serialize_encode inst :=
  let q := fresh "q" in let a := fresh "a" in
  intros q a; unfold encode; cbn [serialize inst];
  rewrite !serialize_encode, ?app_nil_l, <- ?app_assoc; reflexivity.

Ltac struct_deserialize_encode inst cinst :=
  let a := fresh "a" in let rest := fresh "rest" in let Hc := fresh "Hc" in
  intros a rest Hc; unfold encode; cbn [serialize deserialize inst];
  cbn [constructible cinst] in Hc; split_constructible Hc;
  rewrite !serialize_encode, ?app_nil_l, <- ?app_assoc;
  repeat (erewrite bind_Ok by (apply deserialize_encode; assumption));
  unfold ret; destruct a; reflexivity.

Ltac struct_prefix_safe inst :=
  cbn [deserialize inst];
  repeat (apply prefix_safe_bind; [apply deserialize_prefix_safe | intro]);
  apply prefix_safe_ret.

Ltac struct_raises inst :=
  cbn [deserialize inst];
  repeat (apply raises_only_bind; [apply deserialize_raises | intro]);
  apply raises_only_ret.

Ltac struct_returns inst cinst :=
  cbn [deserialize inst];
  repeat (eapply returns_only_bind; [apply deserialize_returns | intros ? ?]);
  apply returns_only_ret; cbn [constructible cinst];
  repeat match goal with |- _ /\ _ => split end; assumption.

Ltac struct_lawful inst cinst :=
  split;
  [ struct_serialize_encode inst
  | struct_deserialize_encode inst cinst
  | struct_prefix_safe inst
  | struct_raises inst
  | struct_returns inst cinst ].

#[export] Instance XdrLawful_opaque_auth : XdrLawful opaque_auth.
Proof. struct_lawful XdrTrait_opaque_auth Constructible_opaque_auth. Qed.

#[export] Instance XdrLawful_call_body : XdrLawful call_body.
Proof. struct_lawful XdrTrait_call_body Constructible_call_body. Qed.

#[export] Instance XdrLawful_rpc_msg_call : XdrLawful rpc_msg_call.
Proof. struct_lawful XdrTrait_rpc_msg_call Constructible_rpc_msg_call. Qed.

#[export] Instance XdrLawful_mismatch_info : XdrLawful mismatch_info.
Proof. struct_lawful XdrTrait_mismatch_info Constructible_mismatch_info. Qed.

#[export] Instance XdrLawful_accepted_reply : XdrLawful accepted_reply.
Proof. struct_lawful XdrTrait_accepted_reply Constructible_accepted_reply. Qed.

#[export] Instance XdrLawful_authsys_parms : XdrLawful authsys_parms.
Proof. struct_lawful XdrTrait_authsys_parms Constructible_authsys_parms. Qed.

(** *** Discriminated unions *)

Lemma serialize_variant_encode {TagType A B}
    `{XdrLawful TagType} `{XdrLawful A} `{XdrLawful B}
    q (value : XdrVariant TagType A B) :
  serialize_variant q value = q ++ serialize_variant [] value.
Proof.
  unfold serialize_variant. destruct (v value);
    rewrite !serialize_encode, ?app_nil_l, <- ?app_assoc; reflexivity.
Qed.

#[export] Instance XdrLawful_rejected_reply : XdrLawful rejected_reply.
Proof.
  split.
  - intros q a. apply serialize_variant_encode.
  - intros [t x] rest Hc. unfold encode.
    cbn [serialize deserialize XdrTrait_rejected_reply].
    unfold serialize_variant, deserialize_rejected_reply.
    destruct t, x; cbn [tag v constructible Constructible_rejected_reply] in *;
      try contradiction;
      rewrite !serialize_encode, ?app_nil_l, <- ?app_assoc;
      (erewrite bind_Ok by (apply deserialize_encode; exact I));
      cbv beta iota;
      (erewrite bind_Ok by (apply deserialize_encode; exact Hc));
      reflexivity.
  - cbn [deserialize XdrTrait_rejected_reply].
    apply prefix_safe_bind; [apply deserialize_prefix_safe|].
    intros []; (apply prefix_safe_bind; [apply deserialize_prefix_safe|]);
      intros ?; apply prefix_safe_ret.
  - cbn [deserialize XdrTrait_rejected_reply].
    apply raises_only_bind; [apply deserialize_raises|].
    intros []; (apply raises_only_bind; [apply deserialize_raises|]);
      intros ?; apply raises_only_ret.
  - cbn [deserialize XdrTrait_rejected_reply].
    eapply returns_only_bind; [apply deserialize_returns|].
    intros [] _;
      (eapply returns_only_bind; [apply deserialize_returns|]);
      intros ? ?; apply returns_only_ret; assumption.
Qed.

#[export] Instance XdrLawful_reply_body : XdrLawful reply_body.
Proof.
  split.
  - intros q a. apply serialize_variant_encode.
  - intros [t x] rest Hc. unfold encode.
    cbn [serialize deserialize XdrTrait_reply_body].
    unfold serialize_variant, deserialize_reply_body.
    destruct t, x; cbn [tag v constructible Constructible_reply_body] in *;
      try contradiction;
      rewrite !serialize_encode, ?app_nil_l, <- ?app_assoc;
      (erewrite bind_Ok by (apply deserialize_encode; exact I));
      cbv beta iota;
      (erewrite bind_Ok by (apply deserialize_encode; exact Hc));
      reflexivity.
  - cbn [deserialize XdrTrait_reply_body].
    apply prefix_safe_bind; [apply deserialize_prefix_safe|].
    intros []; (apply prefix_safe_bind; [apply deserialize_prefix_safe|]);
      intros ?; apply prefix_safe_ret.
  - cbn [deserialize XdrTrait_reply_body].
    apply raises_only_bind; [apply deserialize_raises|].
    intros []; (apply raises_only_bind; [apply deserialize_raises|]);
      intros ?; apply raises_only_ret.
  - cbn [deserialize XdrTrait_reply_body].
    eapply returns_only_bind; [apply deserialize_returns|].
    intros [] _;
      (eapply returns_only_bind; [apply deserialize_returns|]);
      intros ? ?; apply returns_only_ret; assumption.
Qed.

#[export] Instance XdrLawful_rpc_msg_reply : XdrLawful rpc_msg_reply.
Proof. struct_lawful XdrTrait_rpc_msg_reply Constructible_rpc_msg_reply. Qed.

Lemma rejected_reply_constructible_consistent (r : rejected_reply) :
  constructible r -> rejected_reply_consistent r = true.
Proof.
  destruct r as [[] []]; simpl; intros H; try contradiction; reflexivity.
Qed.

Lemma reply_body_constructible_consistent (b : reply_body) :
  constructible b -> reply_body_consistent b = true.
Proof.
  destruct b as [[] [| |r]];
    cbn [constructible Constructible_reply_body reply_body_consistent tag v];
    intros H; try contradiction; try reflexivity.
  now apply rejected_reply_constructible_consistent.
Qed.

(** ** Structural equality *)

Lemma eq_op_refl {T} `{EqLawful T} (a : T) : (a == a) = true.
Proof. now apply eq_op_iff. Qed.

#[export] Instance EqLawful_uint32_t : EqLawful uint32_t.
Proof. split. intros a b. apply N.eqb_eq. Qed.

#[export] Instance EqLawful_byte : EqLawful byte.
Proof.
  split. intros a b. split.
  - apply Byte.byte_dec_bl.
  - apply Byte.byte_dec_lb.
Qed.

#[export] Instance EqLawful_string : EqLawful String.string.
Proof. split. intros a b. apply String.eqb_eq. Qed.

Lemma ordinal_inj {E} `{XdrEnumLawful E} (a b : E) :
  ordinal a = ordinal b -> a = b.
Proof.
  intros Hab.
  pose proof (of_ordinal_ordinal a) as Ha.
  rewrite Hab, of_ordinal_ordinal in Ha. congruence.
Qed.

#[export] Instance EqLawful_enum {E} `{XdrEnumLawful E} : EqLawful E.
Proof.
  split. intros a b. cbn [eq_op EqOp_enum]. rewrite N.eqb_eq. split.
  - apply ordinal_inj.
  - now intros ->.
Qed.

Lemma vector_eq_iff {T} `{EqLawful T} (a b : list T) :
  vector_eq a b = true <-> a = b.
Proof.
  revert b. induction a as [|x a IH]; intros [|y b]; simpl;
    try (split; [discriminate | congruence]); [tauto|].
  rewrite andb_true_iff, eq_op_iff, IH. split.
  - now intros [-> ->].
  - now intros [= -> ->].
Qed.

#[export] Instance EqLawful_OpaqueBytes : EqLawful OpaqueBytes.
Proof. split. intros a b. apply vector_eq_iff. Qed.

#[export] Instance EqLawful_vector_uint32_t : EqLawful (list uint32_t).
Proof. split. intros a b. apply vector_eq_iff. Qed.

Ltac struct_eq_lawful inst :=
  split; intros [] []; cbn [eq_op inst];
  cbn -[eq_op];
  rewrite ?andb_true_iff, ?eq_op_iff; split;
  [ intros ?; repeat match goal with H : _ /\ _ |- _ => destruct H end;
    subst; reflexivity
  | intros [= ]; subst; repeat split; reflexivity ].

#[export] Instance EqLawful_opaque_auth : EqLawful opaque_auth.
Proof. struct_eq_lawful EqOp_opaque_auth. Qed.

#[export] Instance EqLawful_call_body : EqLawful call_body.
Proof. struct_eq_lawful EqOp_call_body. Qed.

#[export] Instance EqLawful_rpc_msg_call : EqLawful rpc_msg_call.
Proof. struct_eq_lawful EqOp_rpc_msg_call. Qed.

#[export] Instance EqLawful_mismatch_info : EqLawful mismatch_info.
Proof. struct_eq_lawful EqOp_mismatch_info. Qed.

#[export] Instance EqLawful_accepted_reply : EqLawful accepted_reply.
Proof. struct_eq_lawful EqOp_accepted_reply. Qed.

#[export] Instance EqLawful_authsys_parms : EqLawful authsys_parms.
Proof. struct_eq_lawful EqOp_authsys_parms. Qed.

#[export] Instance EqLawful_variant {A B} `{EqLawful A} `{EqLawful B}
    : EqLawful (variant A B).
Proof.
  split. intros [|a|b] [|a'|b']; cbn [eq_op EqOp_variant variant_eq];
    rewrite ?eq_op_iff; split; congruence.
Qed.

Lemma XdrVariant_eq_iff {TagType A B}
    `{EqLawful TagType} `{EqLawful A} `{EqLawful B}
    (a b : XdrVariant TagType A B) :
  XdrVariant_eq a b = true <-> a = b.
Proof.
  unfold XdrVariant_eq. rewrite andb_true_iff, !eq_op_iff.
  destruct a, b; simpl. split.
  - now intros [-> ->].
  - now intros [= -> ->].
Qed.

#[export] Instance EqLawful_rejected_reply : EqLawful rejected_reply.
Proof. split. intros a b. apply XdrVariant_eq_iff. Qed.

#[export] Instance EqLawful_reply_body : EqLawful reply_body.
Proof. split. intros a b. apply XdrVariant_eq_iff. Qed.

#[export] Instance EqLawful_rpc_msg_reply : EqLawful rpc_msg_reply.
Proof. struct_eq_lawful EqOp_rpc_msg_reply. Qed.

(** ** The nine message types are lawful *)

Lemma model_lawful (m : message_model) :
  @XdrLawful (carrier m) (model_trait m) (model_constructible m).
Proof. destruct m; simpl; exact _. Qed.

Lemma model_eq_lawful (m : message_model) :
  @EqLawful (carrier m) (model_eq m).
Proof. destruct m; simpl; exact _. Qed.

(** ** Discriminant exhaustiveness *)

Lemma deserialize_enum_unknown {E} `{XdrEnum E} (c rest : Cursor) d :
  deserialize (T := uint32_t) c = Ok (d, rest) ->
  of_ordinal (E := E) d = None ->
  deserialize (T := E) c = Err InvalidEnumValue.
Proof.
  intros Hd Hnone. rewrite deserialize_enum_unfold.
  rewrite (bind_Ok _ _ _ _ _ Hd), Hnone. reflexivity.
Qed.

Lemma two_valued_of_ordinal_None (d : uint32_t) :
  d <> 0 -> d <> 1 ->
  reject_stat_of_ordinal d = None /\ reply_stat_of_ordinal d = None.
Proof.
  intros H0 H1. destruct d as [|[p|p|]]; try contradiction; auto.
Qed.

(** C1.  Whenever the first word of the buffer, the discriminant, is
    neither 0 nor 1, decoding a [rejected_reply] and decoding a
    [reply_body] both fail with [InvalidEnumValue]; so does decoding a
    [reply_body] that is [MSG_DENIED] and whose nested [reject_stat] is such
    a word.  No value, hence no default payload, is returned. *)
Theorem unknown_discriminant_is_rejected :
  forall (c rest : Cursor) (d : uint32_t),
    deserialize (T := uint32_t) c = Ok (d, rest) ->
    d <> 0 -> d <> 1 ->
    deserialize (T := rejected_reply) c = Err InvalidEnumValue /\
    deserialize (T := reply_body) c = Err InvalidEnumValue /\
    deserialize (T := reply_body) (encode MSG_DENIED ++ c)
    = Err InvalidEnumValue.
Proof.
  intros c rest d Hd H0 H1.
  destruct (two_valued_of_ordinal_None d H0 H1) as [Hrej Hrep].
  assert (Hr : deserialize (T := rejected_reply) c = Err InvalidEnumValue).
  { cbn [deserialize XdrTrait_rejected_reply].
    unfold deserialize_rejected_reply.
    apply bind_Err. eapply deserialize_enum_unknown; eassumption. }
  repeat split.
  - exact Hr.
  - cbn [deserialize XdrTrait_reply_body]. unfold deserialize_reply_body.
    apply bind_Err. eapply deserialize_enum_unknown; eassumption.
  - cbn [deserialize XdrTrait_reply_body]. unfold deserialize_reply_body.
    erewrite bind_Ok by (apply deserialize_encode; exact I).
    cbv beta iota. now apply bind_Err.
Qed.

Lemma unknown_discriminant_is_rejected_witness :
  deserialize (T := rejected_reply) unknown_tag_buffer
  = Err InvalidEnumValue /\
  deserialize (T := reply_body) unknown_tag_buffer
  = Err InvalidEnumValue /\
  deserialize (T := reply_body) (encode MSG_DENIED ++ unknown_tag_buffer)
  = Err InvalidEnumValue.
Proof.
  apply (unknown_discriminant_is_rejected
           unknown_tag_buffer (be32_bytes 2 ++ be32_bytes 4) 2).
  - reflexivity.
  - discriminate.
  - discriminate.
Defined.

(** ** Scenarios *)

Lemma length_serialize {T} `{XdrLawful T} (sink : Appender) (a : T) :
  length (serialize sink a) = (length sink + length (encode a))%nat.
Proof. now rewrite serialize_encode, length_app. Qed.

(** Serialized into an empty sink, the call body of scenario A takes 32
    bytes, not 40. *)
Lemma scenario_A_is_not_40_bytes :
  length (serialize [] scenario_A) = 32%nat /\
  length (serialize [] scenario_A) <> 40%nat.
Proof. split; [reflexivity | discriminate]. Qed.

(** C3, amended.  Serializing the call body of scenario A appends exactly
    32 bytes to any sink: four words, and twice a flavor word followed by
    the length word of an empty body.  Wrapped in an [rpc_msg_call], with
    its [xid] and [mtype] words, the message takes 40 bytes. *)
Theorem scenario_A_is_32_bytes :
  (forall sink : Appender,
     length (serialize sink scenario_A) = (length sink + 32)%nat) /\
  (forall (sink : Appender) (x : uint32_t),
     length (serialize sink {| xid := x; mtype := CALL; cbody := scenario_A |})
     = (length sink + 40)%nat).
Proof.
  split; intros; rewrite length_serialize; reflexivity.
Qed.

(** C4.  The twelve bytes of the words 0, 2, 4 decode as the
    [RPC_MISMATCH] rejection carrying [low = 2] and [high = 4], and the
    whole buffer is consumed. *)
Theorem scenario_C_rpc_mismatch :
  deserialize (T := rejected_reply)
    ["000"; "000"; "000"; "000";
     "000"; "000"; "000"; "002";
     "000"; "000"; "000"; "004"]%byte
  = Ok ({| tag := RPC_MISMATCH; v := alt0 {| low := 2; high := 4 |} |}, []).
Proof. reflexivity. Qed.

(** Scenario B: an accepted reply with an empty [AUTH_NONE] verifier. *)
Example scenario_B_accepted :
  deserialize (T := reply_body)
    (be32_bytes 0 ++ (be32_bytes 0 ++ be32_bytes 0) ++ be32_bytes 0)
  = Ok ({| tag := MSG_ACCEPTED;
           v := alt0 {| ar_verf := {| flavor := AUTH_NONE; body := [] |};
                        stat := SUCCESS |} |}, []).
Proof. reflexivity. Qed.

(** Scenario D: a string of declared length 4 followed by three bytes. *)
Example scenario_D_one_byte_short :
  deserialize (T := String.string)
    (be32_bytes 4 ++ ["097"; "098"; "099"]%byte)
  = Err TruncatedInput.
Proof. reflexivity. Qed.

(** Alignment: variable-length data of [L] bytes takes [4 + L + pad L]
    bytes, a multiple of four. *)
Lemma length_encode_OpaqueBytes (data : OpaqueBytes) :
  N.of_nat (length (encode data))
  = 4 + N.of_nat (length data) + pad (N.of_nat (length data)).
Proof.
  unfold encode. cbn [serialize XdrTrait_OpaqueBytes].
  unfold serialize_variable.
  rewrite serialize_encode, app_nil_l, !length_app, repeat_length.
  change (length (encode (N.of_nat (length data)))) with 4%nat.
  lia.
Qed.

(** ** Round trip *)

Lemma decode_encode (m : message_model) (a : carrier m) (rest : Cursor) :
  is_constructible m a ->
  decode m (encode_model m a ++ rest) = Ok (a, rest).
Proof.
  intros Ha. pose proof (model_lawful m) as L.
  now apply (@deserialize_encode _ _ _ L).
Qed.

(** C2.  For each of the nine message types and each constructible value
    [a] of it, decoding the bytes that encoding [a] produced consumes all
    of them and returns a value that [operator==] finds equal to [a]. *)
Theorem round_trip :
  forall (m : message_model) (a : carrier m),
    is_constructible m a ->
    exists a' : carrier m,
      decode m (encode_model m a) = Ok (a', []) /\ equal m a' a = true.
Proof.
  intros m a Ha. exists a. split.
  - rewrite <- (app_nil_r (encode_model m a)). now apply decode_encode.
  - pose proof (model_eq_lawful m) as L. apply (@eq_op_refl _ _ L).
Qed.

Lemma round_trip_witness :
  exists a' : rpc_msg_reply,
    decode M_rpc_msg_reply (encode_model M_rpc_msg_reply sample_reply)
    = Ok (a', [])
    /\ equal M_rpc_msg_reply a' sample_reply = true.
Proof.
  apply (round_trip M_rpc_msg_reply sample_reply).
  repeat split.
Defined.

(** What lies outside [constructible]: a union whose slot holds the other
    payload is encoded as its tag followed by that payload, and those bytes
    do not decode back to it. *)
Lemma mismatched_reply_does_not_round_trip :
  rejected_reply_consistent mismatched_reply = false /\
  deserialize (T := rejected_reply) (encode mismatched_reply)
  = Err TruncatedInput.
Proof. split; reflexivity. Qed.

(** ** Truncation *)

Lemma decode_prefix_safe (m : message_model) : prefix_safe (decode m).
Proof.
  pose proof (model_lawful m) as L.
  apply (@deserialize_prefix_safe _ _ _ L).
Qed.

Lemma decode_truncated (m : message_model) (full : Cursor) (a : carrier m)
    (n : nat) :
  decode m full = Ok (a, []) ->
  (n < length full)%nat ->
  decode m (firstn n full) = Err TruncatedInput.
Proof.
  intros Hrun Hn.
  destruct (decode_prefix_safe m _ _ _ Hrun) as (used & -> & _ & Htr).
  rewrite app_nil_r in *. now apply Htr.
Qed.

(** C6.  For each of the nine message types: a buffer that stops at any
    byte offset before the end of a complete encoding makes [deserialize]
    fail with [TruncatedInput], whether the complete encoding is given as
    a buffer that decodes in full or as the bytes written for a
    constructible value; a successful [deserialize] has consumed a prefix
    of the bytes it was given, nothing else; and variable-length data of
    declared length [len] fails with [TruncatedInput] when fewer than
    [len] bytes and their padding follow the length word. *)
Theorem truncated_input_is_rejected :
  forall (m : message_model),
    (forall (full : Cursor) (a : carrier m) (n : nat),
       decode m full = Ok (a, []) ->
       (n < length full)%nat ->
       decode m (firstn n full) = Err TruncatedInput) /\
    (forall (a : carrier m) (n : nat),
       is_constructible m a ->
       (n < length (encode_model m a))%nat ->
       decode m (firstn n (encode_model m a)) = Err TruncatedInput) /\
    (forall (c : Cursor) (a : carrier m) (rest : Cursor),
       decode m c = Ok (a, rest) -> exists used, c = used ++ rest) /\
    (forall (c rest : Cursor) (len : uint32_t),
       deserialize (T := uint32_t) c = Ok (len, rest) ->
       N.of_nat (length rest) < len + pad len ->
       deserialize (T := OpaqueBytes) c = Err TruncatedInput).
Proof.
  intros m. repeat split.
  - apply decode_truncated.
  - intros a n Ha Hn. apply (decode_truncated m _ a); [|exact Hn].
    rewrite <- (app_nil_r (encode_model m a)). now apply decode_encode.
  - intros c a rest Hrun.
    destruct (decode_prefix_safe m _ _ _ Hrun) as (used & Hc & _).
    now exists used.
  - intros c rest len Hlen Hshort.
    cbn [deserialize XdrTrait_OpaqueBytes]. unfold deserialize_variable.
    rewrite (bind_Ok _ _ _ _ _ Hlen). now apply read_padded_short.
Qed.

Lemma truncated_input_is_rejected_witness :
  decode M_rpc_msg_reply
    (firstn 19 (encode_model M_rpc_msg_reply sample_reply))
  = Err TruncatedInput.
Proof.
  apply (proj1 (proj2 (truncated_input_is_rejected M_rpc_msg_reply))
           sample_reply 19%nat).
  - repeat split.
  - vm_compute. lia.
Defined.

(** ** The version field *)

Lemma codec_error_not_VersionMismatch (e : DecodeError) :
  codec_error e -> e <> VersionMismatch.
Proof. intros [-> | ->]; discriminate. Qed.

Lemma deserialize_call_body_any_rpcvers (c : Cursor) (a : call_body)
    (rest : Cursor) (r : uint32_t) :
  deserialize c = Ok (a, rest) ->
  u32_ok r ->
  deserialize (encode r ++ skipn 4 c) = Ok (set_rpcvers r a, rest).
Proof.
  intros Hrun Hr.
  cbn [deserialize XdrTrait_call_body] in *.
  apply bind_Ok_inv in Hrun as (r0 & c1 & Hfirst & Hrun).
  apply deserialize_uint32_t_Ok in Hfirst as (b0 & b1 & b2 & b3 & -> & _).
  cbn [skipn].
  erewrite bind_Ok by (apply (deserialize_encode (T := uint32_t)); exact Hr).
  unfold bind in *.
  repeat match type of Hrun with
         | context [match @deserialize ?T ?I ?x with _ => _ end] =>
             destruct (@deserialize T I x) as [[? ?]|?]; [|discriminate Hrun]
         end.
  unfold ret in *. injection Hrun as <- <-. reflexivity.
Qed.

(** C5.  [deserialize] of a [call_body] never raises [VersionMismatch];
    whenever a buffer decodes as a call body, the buffer with its first
    word replaced by any other word [r] decodes as well, to the same call
    body with [rpcvers = r]; and the bytes written for a constructible
    call body whose [rpcvers] is not [kRPCVersion] decode to it.  The
    version is left for the caller to inspect. *)
Theorem call_body_decode_ignores_rpcvers :
  (forall (c : Cursor) (e : DecodeError),
     deserialize (T := call_body) c = Err e -> e <> VersionMismatch) /\
  (forall (c : Cursor) (a : call_body) (rest : Cursor) (r : uint32_t),
     deserialize c = Ok (a, rest) ->
     u32_ok r ->
     deserialize (encode r ++ skipn 4 c) = Ok (set_rpcvers r a, rest)) /\
  (forall a : call_body,
     constructible a ->
     rpcvers a <> kRPCVersion ->
     deserialize (encode a) = Ok (a, [])).
Proof.
  repeat split.
  - intros c e H. apply codec_error_not_VersionMismatch.
    exact (deserialize_raises _ _ H).
  - apply deserialize_call_body_any_rpcvers.
  - intros a Ha _. rewrite <- (app_nil_r (encode a)).
    now apply deserialize_encode.
Qed.

Lemma call_body_decode_ignores_rpcvers_witness :
  deserialize (encode 3 ++ skipn 4 (encode scenario_A))
  = Ok (set_rpcvers 3 scenario_A, []).
Proof.
  apply (proj1 (proj2 call_body_decode_ignores_rpcvers)
           (encode scenario_A) scenario_A [] 3).
  - reflexivity.
  - reflexivity.
Defined.

(** ** All or nothing *)

Lemma run_fields_first_failure (fs : list step) :
  forall (k : nat) (f : step) (c c_k : Cursor) (e : DecodeError),
    nth_error fs k = Some f ->
    run_fields (firstn k fs) c = Ok c_k ->
    f c_k = Err e ->
    run_fields fs c = Err e.
Proof.
  induction fs as [|g fs IH]; intros [|k] f c c_k e Hnth Hrun Hf;
    try discriminate.
  - injection Hnth as ->. injection Hrun as ->. simpl. now rewrite Hf.
  - simpl in *. destruct (g c) as [c'|e']; [|discriminate].
    eapply IH; eassumption.
Qed.

Ltac fields_case inst :=
  cbn [deserialize inst];
  unfold deserialize_rejected_reply, deserialize_reply_body, field, bind;
  repeat match goal with
         | |- _ => progress cbn [run_fields]
         | H : @deserialize ?T ?I ?x = _
           |- context [match @deserialize ?T ?I ?x with _ => _ end] =>
             rewrite H
         | |- context [match @deserialize ?T ?I ?x with _ => _ end] =>
             destruct (@deserialize T I x) as [[? ?]|?] eqn:?
         | |- context [match ?t with RPC_MISMATCH => _ | AUTH_ERROR => _ end] =>
             destruct t
         | |- context [match ?t with MSG_ACCEPTED => _ | MSG_DENIED => _ end] =>
             destruct t
         end;
  reflexivity.

(** [deserialize] moves the cursor, or raises, exactly as decoding its
    fields one after the other does. *)
Lemma decode_runs_fields (m : message_model) (c : Cursor) :
  match decode m c with
  | Ok (_, rest) => Ok rest
  | Err e => Err e
  end = run_fields (fields m c) c.
Proof.
  destruct m; unfold decode, fields; cbn [model_trait];
    [ fields_case XdrTrait_opaque_auth
    | fields_case XdrTrait_call_body
    | fields_case XdrTrait_rpc_msg_call
    | fields_case XdrTrait_mismatch_info
    | fields_case XdrTrait_accepted_reply
    | fields_case XdrTrait_rejected_reply
    | fields_case XdrTrait_reply_body
    | fields_case XdrTrait_rpc_msg_reply
    | fields_case XdrTrait_authsys_parms ].
Qed.

(** C7.  For each message type and each cursor: if the fields before the
    [k]-th decode and the [k]-th raises [e], [deserialize] of the
    structure raises [e]; and if [deserialize] returns a value, every
    field was decoded and the cursor stands after the last one.  A run
    that raises returns no value at all. *)
Theorem decode_all_or_nothing :
  forall (m : message_model) (c : Cursor),
    (forall (k : nat) (f : step) (c_k : Cursor) (e : DecodeError),
       nth_error (fields m c) k = Some f ->
       run_fields (firstn k (fields m c)) c = Ok c_k ->
       f c_k = Err e ->
       decode m c = Err e) /\
    (forall (a : carrier m) (rest : Cursor),
       decode m c = Ok (a, rest) ->
       run_fields (fields m c) c = Ok rest).
Proof.
  intros m c. pose proof (decode_runs_fields m c) as Hrun. split.
  - intros k f c_k e Hnth Hpre Hf.
    rewrite (run_fields_first_failure _ _ _ _ _ _ Hnth Hpre Hf) in Hrun.
    destruct (decode m c) as [[a rest]|e']; congruence.
  - intros a rest Hdec. rewrite Hdec in Hrun. now symmetry.
Qed.

Lemma decode_all_or_nothing_witness :
  decode M_rpc_msg_reply bad_mtype_buffer = Err InvalidEnumValue.
Proof.
  apply (proj1 (decode_all_or_nothing M_rpc_msg_reply bad_mtype_buffer)
           1%nat (field msg_type) (be32_bytes 9 ++ be32_bytes 0)).
  - reflexivity.
  - reflexivity.
  - reflexivity.
Defined.

(** ** Tag and payload of a decoded union *)

(** [tag] and [v] are independent members, and [serialize] takes whatever
    pair it is handed: a rejection whose slot holds the payload of the
    other tag is written as its tag followed by that payload, and a reply
    body whose slot is unset as its tag alone.  Neither pair is
    consistent. *)
Lemma inconsistent_union_is_serialized :
  rejected_reply_consistent mismatched_reply = false /\
  serialize [] mismatched_reply = be32_bytes 0 ++ be32_bytes 0 /\
  reply_body_consistent unset_reply_body = false /\
  serialize [] unset_reply_body = be32_bytes 0.
Proof. repeat split. Qed.

(** C8, amended.  Every [rejected_reply] and every [reply_body] that
    [deserialize] returns, alone or as the [rbody] of an [rpc_msg_reply],
    holds in its
    slot the payload its tag selects: a [mismatch_info] under
    [RPC_MISMATCH], an [auth_stat] under [AUTH_ERROR], an [accepted_reply]
    under [MSG_ACCEPTED], a [rejected_reply] under [MSG_DENIED].  The slot
    is never left unset.  Each arm of the switch assigns the slot it
    decoded for its tag; nothing is checked afterwards. *)
Theorem decoded_union_is_consistent :
  (forall (c : Cursor) (r : rejected_reply) (rest : Cursor),
     deserialize c = Ok (r, rest) -> rejected_reply_consistent r = true) /\
  (forall (c : Cursor) (b : reply_body) (rest : Cursor),
     deserialize c = Ok (b, rest) -> reply_body_consistent b = true) /\
  (forall (c : Cursor) (a : rpc_msg_reply) (rest : Cursor),
     deserialize c = Ok (a, rest) -> reply_body_consistent (rbody a) = true).
Proof.
  repeat split.
  - intros c r rest H. apply rejected_reply_constructible_consistent.
    exact (deserialize_returns _ _ _ H).
  - intros c b rest H. apply reply_body_constructible_consistent.
    exact (deserialize_returns _ _ _ H).
  - intros c a rest H. apply reply_body_constructible_consistent.
    pose proof (deserialize_returns _ _ _ H) as Ha.
    apply Ha.
Qed.

Lemma decoded_union_is_consistent_witness :
  reply_body_consistent (rbody sample_reply) = true.
Proof.
  apply (proj2 (proj2 decoded_union_is_consistent)
           (encode sample_reply) sample_reply []).
  reflexivity.
Defined.

(** ** Ordinals *)

Lemma declares_of_ordinal {E} `{XdrEnumLawful E} (ordinals : list uint32_t) :
  (forall e : E, In (ordinal e) ordinals) ->
  Forall (fun n => of_ordinal (E := E) n <> None) ordinals ->
  declares E ordinals.
Proof.
  intros Hall Hsome n. split.
  - intros [e <-]. apply Hall.
  - intros Hin. rewrite Forall_forall in Hsome. specialize (Hsome n Hin).
    destruct (of_ordinal n) as [e|] eqn:E0; [|contradiction].
    exists e. now apply ordinal_of_ordinal.
Qed.

Ltac declares_tac :=
  apply declares_of_ordinal;
  [ intros []; simpl; tauto
  | repeat constructor; discriminate ].

(** C9.  The six enumerations declare exactly the listed ordinals, value
    by value, and [serialize] writes a value of any of them as the four
    big-endian bytes of its ordinal. *)
Theorem enum_ordinals :
  (ordinal CALL = 0 /\ ordinal REPLY = 1 /\ declares msg_type [0; 1]) /\
  (ordinal MSG_ACCEPTED = 0 /\ ordinal MSG_DENIED = 1
   /\ declares reply_stat [0; 1]) /\
  (ordinal RPC_MISMATCH = 0 /\ ordinal AUTH_ERROR = 1
   /\ declares reject_stat [0; 1]) /\
  (map ordinal [SUCCESS; PROG_UNAVAIL; PROG_MISMATCH; PROC_UNAVAIL;
                GARBAGE_ARGS; SYSTEM_ERR] = [0; 1; 2; 3; 4; 5]
   /\ declares accept_stat [0; 1; 2; 3; 4; 5]) /\
  (map ordinal [AUTH_NONE; AUTH_SYS; AUTH_UNIX; AUTH_SHORT; AUTH_DH;
                RPCSEC_GSS] = [0; 1; 1; 2; 3; 6]
   /\ declares auth_flavor [0; 1; 2; 3; 6]) /\
  (map ordinal [AUTH_OK; AUTH_BADCRED; AUTH_REJECTEDCRED; AUTH_BADVERF;
                AUTH_REJECTEDVERF; AUTH_TOOWEAK; AUTH_INVALIDRESP;
                AUTH_FAILED; AUTH_KERB_GENERIC; AUTH_TIMEEXPIRE;
                AUTH_TKT_FILE; AUTH_DECODE; AUTH_NET_ADDR;
                RPCSEC_GSS_CREDPROBLEM; RPCSEC_GSS_CTXPROBLEM]
   = [0; 1; 2; 3; 4; 5; 6; 7; 8; 9; 10; 11; 12; 13; 14]
   /\ declares auth_stat [0; 1; 2; 3; 4; 5; 6; 7; 8; 9; 10; 11; 12; 13; 14]) /\
  (forall (sink : Appender) (e : msg_type),
     serialize sink e = sink ++ be32_bytes (ordinal e)) /\
  (forall (sink : Appender) (e : reply_stat),
     serialize sink e = sink ++ be32_bytes (ordinal e)) /\
  (forall (sink : Appender) (e : reject_stat),
     serialize sink e = sink ++ be32_bytes (ordinal e)) /\
  (forall (sink : Appender) (e : accept_stat),
     serialize sink e = sink ++ be32_bytes (ordinal e)) /\
  (forall (sink : Appender) (e : auth_flavor),
     serialize sink e = sink ++ be32_bytes (ordinal e)) /\
  (forall (sink : Appender) (e : auth_stat),
     serialize sink e = sink ++ be32_bytes (ordinal e)).
Proof.
  repeat match goal with |- _ /\ _ => split end;
    try reflexivity; try declares_tac.
Qed.

(** ** Equality, field by field *)

Lemma equal_forallb (m : message_model) (a b : carrier m) :
  equal m a b = forallb (fun x => x) (field_eqs m a b).
Proof.
  destruct m; unfold equal, field_eqs;
    cbn [model_eq eq_op EqOp_opaque_auth EqOp_call_body EqOp_rpc_msg_call
         EqOp_mismatch_info EqOp_accepted_reply EqOp_rejected_reply
         EqOp_reply_body EqOp_rpc_msg_reply EqOp_authsys_parms forallb];
    unfold XdrVariant_eq;
    rewrite ?andb_true_r, ?andb_assoc; reflexivity.
Qed.

(** C10.  For each message type, [a == b] is true exactly when every
    comparison of corresponding fields, taken in declared order, is true;
    that is the case exactly when [a] and [b] are the same value, and in
    particular [a == a] is true. *)
Theorem operator_eq_fieldwise :
  forall (m : message_model) (a b : carrier m),
    (equal m a b = true <->
     Forall (fun field_eq => field_eq = true) (field_eqs m a b)) /\
    (equal m a b = true <-> a = b) /\
    equal m a a = true.
Proof.
  intros m a b. pose proof (model_eq_lawful m) as L. repeat split.
  - rewrite equal_forallb, forallb_forall, Forall_forall. auto.
  - rewrite equal_forallb, forallb_forall, Forall_forall. auto.
  - apply (@eq_op_iff _ _ L).
  - apply (@eq_op_iff _ _ L).
  - apply (@eq_op_refl _ _ L).
Qed.

(** * Further properties of the codec *)

(** ** Wire layout *)

Ltac layout_case inst :=
  cbn [serialize inst concat];
  rewrite !serialize_encode, ?app_nil_r, <- ?app_assoc; reflexivity.

Lemma serialize_concat_fields :
  forall (m : message_model) (sink : Appender) (a : carrier m),
    @serialize _ (model_trait m) sink a
    = sink ++ concat (field_encodings m a).
Proof.
  intros m sink a.
  destruct m; cbn [model_trait field_encodings carrier] in *;
    [ layout_case XdrTrait_opaque_auth
    | layout_case XdrTrait_call_body
    | layout_case XdrTrait_rpc_msg_call
    | layout_case XdrTrait_mismatch_info
    | layout_case XdrTrait_accepted_reply
    | | 
    | layout_case XdrTrait_rpc_msg_reply
    | layout_case XdrTrait_authsys_parms ].
  - cbn [serialize XdrTrait_rejected_reply concat]. unfold serialize_variant.
    destruct (v a);
      rewrite !serialize_encode, ?app_nil_r, <- ?app_assoc; reflexivity.
  - cbn [serialize XdrTrait_reply_body concat]. unfold serialize_variant.
    destruct (v a);
      rewrite !serialize_encode, ?app_nil_r, <- ?app_assoc; reflexivity.
Qed.

(** X1.  [serialize] leaves the bytes already in the sink in place and
    appends the encodings of the fields, one after the other in declared
    order, and nothing else. *)
Theorem serialize_layout :
  forall (m : message_model) (sink : Appender) (a : carrier m),
    @serialize _ (model_trait m) sink a
    = sink ++ concat (field_encodings m a).
Proof. exact serialize_concat_fields. Qed.

(** ** Decoding within a longer buffer *)

(** X2.  Decoding the encoding of a constructible value followed by any
    bytes returns that value and leaves the cursor at the first byte that
    follows: what comes after a value in the buffer ("procedure-specific
    parameters start here") is neither read nor skipped. *)
Theorem decode_leaves_trailing_bytes :
  forall (m : message_model) (a : carrier m) (rest : Cursor),
    is_constructible m a ->
    decode m (encode_model m a ++ rest) = Ok (a, rest).
Proof.
  intros m a rest Ha. pose proof (model_lawful m) as L.
  now apply (@deserialize_encode _ _ _ L).
Qed.

Lemma decode_leaves_trailing_bytes_witness :
  decode M_call_body (encode_model M_call_body scenario_A ++ be32_bytes 5)
  = Ok (scenario_A, be32_bytes 5).
Proof.
  apply (decode_leaves_trailing_bytes M_call_body scenario_A (be32_bytes 5)).
  repeat split.
Defined.

(** X3.  What a successful [deserialize] returns depends only on the
    bytes it consumed: with anything else after those bytes it returns the
    same value and leaves that anything else. *)
Theorem decode_ignores_what_follows :
  forall (m : message_model) (c : Cursor) (a : carrier m) (rest : Cursor),
    decode m c = Ok (a, rest) ->
    exists used : list byte,
      c = used ++ rest /\
      forall rest' : Cursor, decode m (used ++ rest') = Ok (a, rest').
Proof.
  intros m c a rest Hrun.
  destruct (decode_prefix_safe m _ _ _ Hrun) as (used & Hc & Hframe & _).
  exists used. split; assumption.
Qed.

Lemma decode_ignores_what_follows_witness :
  exists used : list byte,
    encode_model M_call_body scenario_A ++ be32_bytes 5
    = used ++ be32_bytes 5 /\
    forall rest' : Cursor,
      decode M_call_body (used ++ rest') = Ok (scenario_A, rest').
Proof.
  apply (decode_ignores_what_follows M_call_body
           (encode_model M_call_body scenario_A ++ be32_bytes 5)
           scenario_A (be32_bytes 5)).
  reflexivity.
Defined.

(** X4.  The encoding is uniquely decodable: if the encodings of two
    constructible values, each followed by arbitrary bytes, give the same
    buffer, the values are the same and so are the bytes that follow.  In
    particular no encoding is a proper prefix of another. *)
Theorem encode_prefix_free :
  forall (m : message_model) (a b : carrier m) (r1 r2 : list byte),
    is_constructible m a ->
    is_constructible m b ->
    encode_model m a ++ r1 = encode_model m b ++ r2 ->
    a = b /\ r1 = r2.
Proof.
  intros m a b r1 r2 Ha Hb Heq.
  pose proof (decode_encode m a r1 Ha) as H1.
  pose proof (decode_encode m b r2 Hb) as H2.
  rewrite Heq, H2 in H1. injection H1 as -> ->. split; reflexivity.
Qed.

Lemma encode_prefix_free_witness :
  scenario_A = scenario_A /\ be32_bytes 5 = be32_bytes 5.
Proof.
  apply (encode_prefix_free M_call_body scenario_A scenario_A
           (be32_bytes 5) (be32_bytes 5)).
  - repeat split.
  - repeat split.
  - reflexivity.
Defined.

(** X5.  Whatever [deserialize] returns is constructible, and can be sent
    back: its own encoding decodes to it. *)
Theorem decoded_value_round_trips :
  forall (m : message_model) (c : Cursor) (a : carrier m) (rest : Cursor),
    decode m c = Ok (a, rest) ->
    is_constructible m a /\
    decode m (encode_model m a) = Ok (a, []).
Proof.
  intros m c a rest Hrun. pose proof (model_lawful m) as L.
  assert (Ha : is_constructible m a)
    by exact (@deserialize_returns _ _ _ L _ _ _ Hrun).
  split; [exact Ha|].
  rewrite <- (app_nil_r (encode_model m a)). now apply decode_encode.
Qed.

Lemma decoded_value_round_trips_witness :
  is_constructible M_call_body scenario_A /\
  decode M_call_body (encode_model M_call_body scenario_A)
  = Ok (scenario_A, []).
Proof.
  apply (decoded_value_round_trips M_call_body
           (encode_model M_call_body scenario_A ++ be32_bytes 5)
           scenario_A (be32_bytes 5)).
  reflexivity.
Defined.

(** X6.  On constructible values [operator==] is equality of the bytes on
    the wire. *)
Theorem equal_iff_same_encoding :
  forall (m : message_model) (a b : carrier m),
    is_constructible m a ->
    is_constructible m b ->
    (equal m a b = true <-> encode_model m a = encode_model m b).
Proof.
  intros m a b Ha Hb. pose proof (model_eq_lawful m) as L.
  unfold equal. rewrite (@eq_op_iff _ _ L). split.
  - now intros ->.
  - intros Heq.
    pose proof (decode_encode m a [] Ha) as H1.
    pose proof (decode_encode m b [] Hb) as H2.
    rewrite Heq, H2 in H1. now injection H1 as ->.
Qed.

Lemma equal_iff_same_encoding_witness :
  equal M_call_body scenario_A (set_rpcvers 3 scenario_A) = true <->
  encode_model M_call_body scenario_A
  = encode_model M_call_body (set_rpcvers 3 scenario_A).
Proof.
  apply (equal_iff_same_encoding M_call_body scenario_A
           (set_rpcvers 3 scenario_A)).
  - repeat split.
  - repeat split.
Defined.

(** ** Which errors a decoder can raise *)

Lemma truncation_only_uint32_t :
  raises_only truncation_only (deserialize (T := uint32_t)).
Proof.
  intros c e H.
  destruct c as [|b0 [|b1 [|b2 [|b3 c]]]]; simpl in H;
    unfold truncation_only; congruence.
Qed.

Lemma truncation_only_deserialize_variable :
  raises_only truncation_only deserialize_variable.
Proof.
  apply raises_only_bind; [apply truncation_only_uint32_t|].
  intros len c e. unfold read_padded.
  destruct (N.of_nat (length c) <? len + pad len); intros [= <-].
  reflexivity.
Qed.

Lemma truncation_only_string :
  raises_only truncation_only (deserialize (T := String.string)).
Proof.
  cbn [deserialize XdrTrait_string].
  apply raises_only_bind; [apply truncation_only_deserialize_variable|].
  intros data. apply raises_only_ret.
Qed.

Lemma truncation_only_vector_uint32_t :
  raises_only truncation_only (deserialize (T := list uint32_t)).
Proof.
  cbn [deserialize XdrTrait_vector_uint32_t].
  apply raises_only_bind; [apply truncation_only_uint32_t|].
  intros count. induction (N.to_nat count) as [|n IH]; simpl.
  - apply raises_only_ret.
  - apply raises_only_bind; [apply truncation_only_uint32_t|]. intros x.
    apply raises_only_bind; [exact IH|]. intros l.
    apply raises_only_ret.
Qed.

(** X7.  Decoding any of the nine message types raises nothing but
    [TruncatedInput] and [InvalidEnumValue]; decoding a [mismatch_info] or
    an [authsys_parms], which have no enumeration among their fields, can
    only fail by running out of input. *)
Theorem decode_errors :
  (forall (m : message_model) (c : Cursor) (e : DecodeError),
     decode m c = Err e -> e = TruncatedInput \/ e = InvalidEnumValue) /\
  (forall (c : Cursor) (e : DecodeError),
     deserialize (T := mismatch_info) c = Err e -> e = TruncatedInput) /\
  (forall (c : Cursor) (e : DecodeError),
     deserialize (T := authsys_parms) c = Err e -> e = TruncatedInput).
Proof.
  repeat split.
  - intros m c e H. pose proof (model_lawful m) as L.
    exact (@deserialize_raises _ _ _ L _ _ H).
  - cbn [deserialize XdrTrait_mismatch_info].
    apply (raises_only_bind truncation_only);
      [apply truncation_only_uint32_t | intros ?].
    apply (raises_only_bind truncation_only);
      [apply truncation_only_uint32_t | intros ?].
    apply raises_only_ret.
  - cbn [deserialize XdrTrait_authsys_parms].
    apply (raises_only_bind truncation_only);
      [apply truncation_only_uint32_t | intros ?].
    apply (raises_only_bind truncation_only);
      [apply truncation_only_string | intros ?].
    apply (raises_only_bind truncation_only);
      [apply truncation_only_uint32_t | intros ?].
    apply (raises_only_bind truncation_only);
      [apply truncation_only_uint32_t | intros ?].
    apply (raises_only_bind truncation_only);
      [apply truncation_only_vector_uint32_t | intros ?].
    apply raises_only_ret.
Qed.

Lemma decode_errors_witness :
  InvalidEnumValue = TruncatedInput \/ InvalidEnumValue = InvalidEnumValue.
Proof.
  apply (proj1 decode_errors M_rpc_msg_reply bad_mtype_buffer).
  reflexivity.
Defined.

(** ** The message header *)

Lemma deserialize_rpc_msg_call_inv (c : Cursor) (a : rpc_msg_call) rest :
  deserialize c = Ok (a, rest) ->
  exists c1 c2,
    deserialize (T := uint32_t) c = Ok (xid a, c1) /\
    deserialize (T := msg_type) c1 = Ok (mtype a, c2) /\
    deserialize (T := call_body) c2 = Ok (cbody a, rest).
Proof.
  cbn [deserialize XdrTrait_rpc_msg_call]. intros H.
  apply bind_Ok_inv in H as (x & c1 & H1 & H).
  apply bind_Ok_inv in H as (t & c2 & H2 & H).
  apply bind_Ok_inv in H as (b & c3 & H3 & H).
  injection H as <- <-. exists c1, c2. auto.
Qed.

Lemma deserialize_rpc_msg_reply_inv (c : Cursor) (a : rpc_msg_reply) rest :
  deserialize c = Ok (a, rest) ->
  exists c1 c2,
    deserialize (T := uint32_t) c = Ok (rmr_xid a, c1) /\
    deserialize (T := msg_type) c1 = Ok (rmr_mtype a, c2) /\
    deserialize (T := reply_body) c2 = Ok (rbody a, rest).
Proof.
  cbn [deserialize XdrTrait_rpc_msg_reply]. intros H.
  apply bind_Ok_inv in H as (x & c1 & H1 & H).
  apply bind_Ok_inv in H as (t & c2 & H2 & H).
  apply bind_Ok_inv in H as (b & c3 & H3 & H).
  injection H as <- <-. exists c1, c2. auto.
Qed.



Lemma deserialize_enum_Ok {E} `{XdrEnum E} (c : Cursor) (e : E) rest :
  deserialize c = Ok (e, rest) ->
  exists b0 b1 b2 b3,
    c = b0 :: b1 :: b2 :: b3 :: rest /\
    of_ordinal (be32 b0 b1 b2 b3) = Some e.
Proof.
  rewrite deserialize_enum_unfold. intros Hrun.
  apply bind_Ok_inv in Hrun as (n & c1 & Hn & Hrun).
  apply deserialize_uint32_t_Ok in Hn as (b0 & b1 & b2 & b3 & -> & ->).
  exists b0, b1, b2, b3.
  destruct (of_ordinal (be32 b0 b1 b2 b3)) as [e'|]; [|discriminate].
  injection Hrun as -> ->. auto.
Qed.

(** X9.  Neither message decoder looks at what [mtype] says: whenever a
    buffer decodes as an [rpc_msg_call] (as an [rpc_msg_reply]), the same
    buffer with its second word replaced by the encoding of either
    [msg_type] decodes to the same message with that [mtype].  A call
    marked [REPLY] and a reply marked [CALL] are decoded like any
    other. *)
Theorem mtype_is_not_checked :
  (forall (c : Cursor) (a : rpc_msg_call) (rest : Cursor) (t : msg_type),
     deserialize c = Ok (a, rest) ->
     deserialize (firstn 4 c ++ encode t ++ skipn 8 c)
     = Ok (set_mtype t a, rest)) /\
  (forall (c : Cursor) (a : rpc_msg_reply) (rest : Cursor) (t : msg_type),
     deserialize c = Ok (a, rest) ->
     deserialize (firstn 4 c ++ encode t ++ skipn 8 c)
     = Ok (set_rmr_mtype t a, rest)).
Proof.
  split.
  - intros c a rest t H.
    apply deserialize_rpc_msg_call_inv in H as (c1 & c2 & Hx & Ht & Hb).
    apply deserialize_uint32_t_Ok in Hx as (b0 & b1 & b2 & b3 & -> & Hx).
    apply deserialize_enum_Ok in Ht as (b4 & b5 & b6 & b7 & -> & _).
    cbn [firstn skipn app].
    cbn [deserialize XdrTrait_rpc_msg_call].
    erewrite bind_Ok by reflexivity.
    erewrite bind_Ok by (apply deserialize_encode; exact I).
    erewrite bind_Ok by exact Hb.
    unfold ret, set_mtype. now rewrite Hx.
  - intros c a rest t H.
    apply deserialize_rpc_msg_reply_inv in H as (c1 & c2 & Hx & Ht & Hb).
    apply deserialize_uint32_t_Ok in Hx as (b0 & b1 & b2 & b3 & -> & Hx).
    apply deserialize_enum_Ok in Ht as (b4 & b5 & b6 & b7 & -> & _).
    cbn [firstn skipn app].
    cbn [deserialize XdrTrait_rpc_msg_reply].
    erewrite bind_Ok by reflexivity.
    erewrite bind_Ok by (apply deserialize_encode; exact I).
    erewrite bind_Ok by exact Hb.
    unfold ret, set_rmr_mtype. now rewrite Hx.
Qed.

Lemma mtype_is_not_checked_witness :
  deserialize (firstn 4 (encode sample_reply) ++ encode CALL
               ++ skipn 8 (encode sample_reply))
  = Ok (set_rmr_mtype CALL sample_reply, []).
Proof.
  apply (proj2 mtype_is_not_checked (encode sample_reply) sample_reply []
           CALL).
  reflexivity.
Defined.

(** ** Fixed-size payloads *)

Lemma be32_inj (a0 a1 a2 a3 b0 b1 b2 b3 : byte) :
  be32 a0 a1 a2 a3 = be32 b0 b1 b2 b3 ->
  a0 = b0 /\ a1 = b1 /\ a2 = b2 /\ a3 = b3.
Proof.
  unfold be32.
  pose proof (Byte.to_N_bounded a0). pose proof (Byte.to_N_bounded a1).
  pose proof (Byte.to_N_bounded a2). pose proof (Byte.to_N_bounded a3).
  pose proof (Byte.to_N_bounded b0). pose proof (Byte.to_N_bounded b1).
  pose proof (Byte.to_N_bounded b2). pose proof (Byte.to_N_bounded b3).
  change (2 ^ 24) with 16777216. change (2 ^ 16) with 65536.
  change (2 ^ 8) with 256.
  intros Heq. repeat split; apply to_N_inj; lia.
Qed.

Lemma be32_bytes_be32 (b0 b1 b2 b3 : byte) :
  be32_bytes (be32 b0 b1 b2 b3) = [b0; b1; b2; b3].
Proof.
  pose proof (be32_of_bytes _ (be32_lt b0 b1 b2 b3)) as H.
  apply be32_inj in H as (H0 & H1 & H2 & H3).
  unfold be32_bytes. now rewrite H0, H1, H2, H3.
Qed.

(** X10.  Decoding a [mismatch_info] is the exact inverse of encoding
    it: a buffer decodes to [a], leaving [rest], exactly when it is the
    eight bytes of the encoding of [a] followed by [rest] and both bounds
    are 32-bit words.  The only buffers that fail are those of fewer than
    eight bytes, and no order between [low] and [high] is required. *)
Theorem mismatch_info_decoding_is_exact :
  (forall (c : Cursor) (a : mismatch_info) (rest : Cursor),
     deserialize c = Ok (a, rest) <->
     constructible a /\ c = encode a ++ rest) /\
  (forall c : Cursor,
     (exists e, deserialize (T := mismatch_info) c = Err e) <->
     (length c < 8)%nat).
Proof.
  split.
  - intros c a rest. split.
    + intros H. split; [exact (deserialize_returns _ _ _ H)|].
      cbn [deserialize XdrTrait_mismatch_info] in H.
      apply bind_Ok_inv in H as (l & c1 & Hl & H).
      apply bind_Ok_inv in H as (h & c2 & Hh & H).
      injection H as <- <-.
      apply deserialize_uint32_t_Ok in Hl as (b0 & b1 & b2 & b3 & -> & ->).
      apply deserialize_uint32_t_Ok in Hh as (b4 & b5 & b6 & b7 & -> & ->).
      unfold encode. cbn [serialize XdrTrait_mismatch_info low high].
      cbn [serialize XdrTrait_uint32_t app].
      now rewrite !be32_bytes_be32.
    + intros [Ha ->]. now apply deserialize_encode.
  - intros c. split.
    + intros [e He].
      destruct c as [|b0 [|b1 [|b2 [|b3 [|b4 [|b5 [|b6 [|b7 c]]]]]]]];
        simpl; try lia.
      discriminate He.
    + intros Hlen. exists TruncatedInput.
      destruct c as [|b0 [|b1 [|b2 [|b3 [|b4 [|b5 [|b6 [|b7 c]]]]]]]];
        simpl in Hlen; try lia; reflexivity.
Qed.

Lemma mismatch_info_decoding_is_exact_witness :
  constructible {| low := 2; high := 4 |} /\
  be32_bytes 2 ++ be32_bytes 4 ++ be32_bytes 9
  = encode {| low := 2; high := 4 |} ++ be32_bytes 9.
Proof.
  apply (proj1 (proj1 mismatch_info_decoding_is_exact
                  (be32_bytes 2 ++ be32_bytes 4 ++ be32_bytes 9)
                  {| low := 2; high := 4 |} (be32_bytes 9))).
  reflexivity.
Defined.

(** ** Alignment and sizes *)

Lemma aligned_app {A} (l1 l2 : list A) :
  (length l1 mod 4 = 0)%nat -> (length l2 mod 4 = 0)%nat ->
  (length (l1 ++ l2) mod 4 = 0)%nat.
Proof.
  intros H1 H2. rewrite length_app, Nat.Div0.add_mod, H1, H2. reflexivity.
Qed.

Lemma aligned_of_N (n : nat) :
  N.of_nat n mod 4 = 0 -> (n mod 4 = 0)%nat.
Proof.
  intros H. apply Nat2N.inj. now rewrite Nat2N.inj_mod.
Qed.

Lemma padded_aligned (n : nat) : (4 + padded n) mod 4 = 0.
Proof.
  unfold padded.
  rewrite N.Div0.add_mod, pad_aligned. reflexivity.
Qed.

Lemma length_serialize_variable (data : list byte) :
  N.of_nat (length (serialize_variable [] data)) = 4 + padded (length data).
Proof.
  pose proof (length_encode_OpaqueBytes data) as H.
  unfold padded. rewrite N.add_assoc. exact H.
Qed.

Lemma length_serialize_elements (l : list uint32_t) :
  length (serialize_elements [] l) = (4 * length l)%nat.
Proof.
  induction l as [|x l IH]; [reflexivity|].
  cbn [serialize_elements].
  rewrite serialize_elements_encode, length_app, IH.
  change (length (serialize [] x)) with 4%nat. simpl length. lia.
Qed.

#[export] Instance XdrAligned_uint32_t : XdrAligned uint32_t.
Proof. split. intros a. reflexivity. Qed.

#[export] Instance XdrAligned_enum {E} `{XdrEnum E} : XdrAligned E.
Proof. split. intros a. reflexivity. Qed.

#[export] Instance XdrAligned_OpaqueBytes : XdrAligned OpaqueBytes.
Proof.
  split. intros a. apply aligned_of_N. unfold encode.
  cbn [serialize XdrTrait_OpaqueBytes].
  rewrite length_serialize_variable. apply padded_aligned.
Qed.

#[export] Instance XdrAligned_string : XdrAligned String.string.
Proof.
  split. intros a. apply aligned_of_N. unfold encode.
  cbn [serialize XdrTrait_string].
  rewrite length_serialize_variable. apply padded_aligned.
Qed.

#[export] Instance XdrAligned_vector_uint32_t : XdrAligned (list uint32_t).
Proof.
  split. intros a. unfold encode. cbn [serialize XdrTrait_vector_uint32_t].
  rewrite serialize_elements_encode. apply aligned_app; [reflexivity|].
  rewrite length_serialize_elements, Nat.mul_comm. apply Nat.Div0.mod_mul.
Qed.

Ltac struct_aligned inst :=
  split; intros a; unfold encode; cbn [serialize inst];
  rewrite !serialize_encode, app_nil_l;
  repeat match goal with
         | |- (length (_ ++ _) mod 4 = 0)%nat => apply aligned_app
         end;
  apply encode_aligned.

#[export] Instance XdrAligned_opaque_auth : XdrAligned opaque_auth.
Proof. struct_aligned XdrTrait_opaque_auth. Qed.

#[export] Instance XdrAligned_call_body : XdrAligned call_body.
Proof. struct_aligned XdrTrait_call_body. Qed.

#[export] Instance XdrAligned_rpc_msg_call : XdrAligned rpc_msg_call.
Proof. struct_aligned XdrTrait_rpc_msg_call. Qed.

#[export] Instance XdrAligned_mismatch_info : XdrAligned mismatch_info.
Proof. struct_aligned XdrTrait_mismatch_info. Qed.

#[export] Instance XdrAligned_accepted_reply : XdrAligned accepted_reply.
Proof. struct_aligned XdrTrait_accepted_reply. Qed.

#[export] Instance XdrAligned_authsys_parms : XdrAligned authsys_parms.
Proof. struct_aligned XdrTrait_authsys_parms. Qed.

Lemma serialize_variant_aligned {TagType A B}
    `{XdrLawful TagType} `{XdrLawful A} `{XdrLawful B}
    `{!XdrAligned TagType} `{!XdrAligned A} `{!XdrAligned B}
    (value : XdrVariant TagType A B) :
  (length (serialize_variant [] value) mod 4 = 0)%nat.
Proof.
  unfold serialize_variant. destruct (v value);
    rewrite ?serialize_encode, ?app_nil_l;
    repeat match goal with
           | |- (length (_ ++ _) mod 4 = 0)%nat => apply aligned_app
           end;
    apply encode_aligned.
Qed.

#[export] Instance XdrAligned_rejected_reply : XdrAligned rejected_reply.
Proof. split. intros a. apply serialize_variant_aligned. Qed.

#[export] Instance XdrAligned_reply_body : XdrAligned reply_body.
Proof. split. intros a. apply serialize_variant_aligned. Qed.

#[export] Instance XdrAligned_rpc_msg_reply : XdrAligned rpc_msg_reply.
Proof. struct_aligned XdrTrait_rpc_msg_reply. Qed.

Lemma model_aligned (m : message_model) :
  @XdrAligned (carrier m) (model_trait m).
Proof. destruct m; simpl; exact _. Qed.

(** X11.  Every value of every message type is encoded as a whole number
    of 4-byte words. *)
Theorem encoding_is_word_aligned :
  forall (m : message_model) (a : carrier m),
    (length (encode_model m a) mod 4 = 0)%nat.
Proof.
  intros m a. pose proof (model_aligned m) as L.
  apply (@encode_aligned _ _ L).
Qed.

Lemma length_encode_uint32_t (x : uint32_t) : length (encode x) = 4%nat.
Proof. reflexivity. Qed.

Lemma length_encode_enum {E} `{XdrEnum E} (e : E) : length (encode e) = 4%nat.
Proof. reflexivity. Qed.

Lemma length_encode_opaque_auth (a : opaque_auth) :
  N.of_nat (length (encode a)) = 8 + padded (length (body a)).
Proof.
  unfold encode at 1. cbn [serialize XdrTrait_opaque_auth].
  rewrite !serialize_encode, app_nil_l, length_app, Nat2N.inj_add.
  rewrite length_encode_enum.
  change (encode (body a)) with (serialize_variable [] (body a)).
  rewrite length_serialize_variable. lia.
Qed.

Lemma length_encode_call_body (a : call_body) :
  N.of_nat (length (encode a))
  = 32 + padded (length (body (cred a))) + padded (length (body (verf a))).
Proof.
  unfold encode at 1. cbn [serialize XdrTrait_call_body].
  rewrite !serialize_encode, app_nil_l, !length_app, !Nat2N.inj_add.
  rewrite !length_encode_uint32_t, !length_encode_opaque_auth. lia.
Qed.

(** X12.  The size of a call on the wire: an [opaque_auth] takes 8 bytes
    plus its body and padding, a [call_body] 32 bytes plus the bodies of
    its credential and verifier with their padding, and a whole
    [rpc_msg_call] 8 bytes more. *)
Theorem call_sizes :
  (forall a : opaque_auth,
     N.of_nat (length (encode a)) = 8 + padded (length (body a))) /\
  (forall a : call_body,
     N.of_nat (length (encode a))
     = 32 + padded (length (body (cred a)))
       + padded (length (body (verf a)))) /\
  (forall a : rpc_msg_call,
     N.of_nat (length (encode a))
     = 40 + padded (length (body (cred (cbody a))))
       + padded (length (body (verf (cbody a))))).
Proof.
  repeat split.
  - apply length_encode_opaque_auth.
  - apply length_encode_call_body.
  - intros a. unfold encode at 1. cbn [serialize XdrTrait_rpc_msg_call].
    rewrite !serialize_encode, app_nil_l, !length_app, !Nat2N.inj_add.
    rewrite length_encode_uint32_t, length_encode_enum,
      length_encode_call_body.
    lia.
Qed.

Lemma length_encode_rpc_msg_reply (a : rpc_msg_reply) :
  N.of_nat (length (encode a))
  = match v (rbody a) with
    | monostate => 12
    | alt0 accepted => 24 + padded (length (body (ar_verf accepted)))
    | alt1 rejected =>
        match v rejected with
        | monostate => 16
        | alt0 _ => 24
        | alt1 _ => 20
        end
    end.
Proof.
  destruct a as [x t [bt bv]]. unfold encode at 1.
  cbn [serialize XdrTrait_rpc_msg_reply rmr_xid rmr_mtype rbody v].
  rewrite !serialize_encode, app_nil_l, !length_app, !Nat2N.inj_add.
  rewrite length_encode_uint32_t, length_encode_enum.
  unfold encode at 1. cbn [serialize XdrTrait_reply_body].
  unfold serialize_variant. cbn [tag v].
  destruct bv as [|acc|[rt rv]].
  - reflexivity.
  - rewrite !serialize_encode, app_nil_l, length_app, Nat2N.inj_add.
    rewrite length_encode_enum.
    unfold encode at 1. cbn [serialize XdrTrait_accepted_reply].
    rewrite !serialize_encode, app_nil_l, length_app, Nat2N.inj_add.
    rewrite length_encode_enum, length_encode_opaque_auth. lia.
  - rewrite !serialize_encode, app_nil_l, length_app, Nat2N.inj_add.
    rewrite length_encode_enum.
    unfold encode at 1. cbn [serialize XdrTrait_rejected_reply].
    unfold serialize_variant. cbn [tag v].
    destruct rv as [|mi|st].
    + reflexivity.
    + rewrite !serialize_encode, app_nil_l, length_app, Nat2N.inj_add.
      rewrite length_encode_enum. reflexivity.
    + rewrite !serialize_encode, app_nil_l, length_app, Nat2N.inj_add.
      rewrite !length_encode_enum. reflexivity.
Qed.

(** X13.  The size of a reply on the wire is decided by the payloads it
    carries: 24 bytes plus the verifier's body and padding when it carries
    an [accepted_reply], 24 bytes when it carries a rejection with a
    [mismatch_info], 20 bytes when it carries a rejection with an
    [auth_stat]. *)
Theorem reply_sizes :
  forall a : rpc_msg_reply,
    (forall accepted : accepted_reply,
       v (rbody a) = alt0 accepted ->
       N.of_nat (length (encode a))
       = 24 + padded (length (body (ar_verf accepted)))) /\
    (forall (rejected : rejected_reply) (info : mismatch_info),
       v (rbody a) = alt1 rejected -> v rejected = alt0 info ->
       N.of_nat (length (encode a)) = 24) /\
    (forall (rejected : rejected_reply) (status : auth_stat),
       v (rbody a) = alt1 rejected -> v rejected = alt1 status ->
       N.of_nat (length (encode a)) = 20).
Proof.
  intros a. pose proof (length_encode_rpc_msg_reply a) as H.
  repeat split.
  - intros accepted Hv. now rewrite Hv in H.
  - intros rejected info Hv Hr. now rewrite Hv, Hr in H.
  - intros rejected status Hv Hr. now rewrite Hv, Hr in H.
Qed.

Lemma reply_sizes_witness :
  N.of_nat (length (encode sample_reply)) = 24.
Proof.
  apply (proj1 (proj2 (reply_sizes sample_reply))
           {| tag := RPC_MISMATCH; v := alt0 {| low := 2; high := 4 |} |}
           {| low := 2; high := 4 |}).
  - reflexivity.
  - reflexivity.
Defined.

(** ** How far the cursor moves *)

#[export] Instance XdrConsumes_uint32_t : XdrConsumes uint32_t.
Proof.
  split. intros c a rest Hrun.
  apply deserialize_uint32_t_Ok in Hrun as (b0 & b1 & b2 & b3 & -> & _).
  reflexivity.
Qed.

#[export] Instance XdrConsumes_enum {E} `{XdrEnum E} : XdrConsumes E.
Proof.
  split. intros c a rest Hrun.
  apply deserialize_enum_Ok in Hrun as (b0 & b1 & b2 & b3 & -> & _).
  reflexivity.
Qed.

Lemma deserialize_variable_consumes (c : Cursor) (data : list byte) rest :
  deserialize_variable c = Ok (data, rest) ->
  length c = (length (serialize_variable [] data) + length rest)%nat.
Proof.
  unfold deserialize_variable. intros Hrun.
  apply bind_Ok_inv in Hrun as (len & c1 & Hlen & Hrun).
  apply deserialize_uint32_t_Ok in Hlen as (b0 & b1 & b2 & b3 & -> & _).
  apply read_padded_Ok in Hrun as (Hfit & -> & ->).
  apply Nat2N.inj.
  rewrite Nat2N.inj_add, length_serialize_variable.
  unfold padded. rewrite length_firstn, length_skipn.
  replace (Nat.min (N.to_nat len) (length c1)) with (N.to_nat len) by lia.
  rewrite N2Nat.id. cbn [length]. lia.
Qed.

#[export] Instance XdrConsumes_OpaqueBytes : XdrConsumes OpaqueBytes.
Proof. split. intros c a rest. apply deserialize_variable_consumes. Qed.

#[export] Instance XdrConsumes_string : XdrConsumes String.string.
Proof.
  split. intros c a rest Hrun. cbn [deserialize XdrTrait_string] in Hrun.
  apply bind_Ok_inv in Hrun as (data & c1 & Hdata & Hrun).
  injection Hrun as <- <-.
  apply deserialize_variable_consumes in Hdata.
  unfold encode. cbn [serialize XdrTrait_string].
  now rewrite String.list_byte_of_string_of_list_byte.
Qed.

Lemma deserialize_elements_consumes (n : nat) :
  forall (c : Cursor) (l : list uint32_t) rest,
    deserialize_elements n c = Ok (l, rest) ->
    length c = (4 * length l + length rest)%nat.
Proof.
  induction n as [|n IH]; intros c l rest Hrun; cbn [deserialize_elements] in Hrun.
  - injection Hrun as <- <-. reflexivity.
  - apply bind_Ok_inv in Hrun as (x & c1 & Hx & Hrun).
    apply bind_Ok_inv in Hrun as (l' & c2 & Hl & Hrun).
    injection Hrun as <- <-.
    apply deserialize_consumes in Hx. apply IH in Hl.
    rewrite length_encode_uint32_t in Hx. cbn [length]. lia.
Qed.

#[export] Instance XdrConsumes_vector_uint32_t : XdrConsumes (list uint32_t).
Proof.
  split. intros c a rest Hrun.
  cbn [deserialize XdrTrait_vector_uint32_t] in Hrun.
  apply bind_Ok_inv in Hrun as (count & c1 & Hcount & Hrun).
  apply deserialize_consumes in Hcount.
  apply deserialize_elements_consumes in Hrun.
  unfold encode. cbn [serialize XdrTrait_vector_uint32_t].
  rewrite serialize_elements_encode, length_app, length_serialize_elements.
  rewrite length_encode_uint32_t in Hcount.
  change (length (serialize [] (N.of_nat (length a)))) with 4%nat. lia.
Qed.

Ltac struct_consumes inst :=
  let c := fresh "c" in let a := fresh "a" in
  let rest := fresh "rest" in let Hrun := fresh "Hrun" in
  split; intros c a rest Hrun; cbn [deserialize inst] in Hrun;
  repeat (let x := fresh "x" in let c1 := fresh "c" in
          let Hx := fresh "Hx" in
          apply bind_Ok_inv in Hrun as (x & c1 & Hx & Hrun);
          apply deserialize_consumes in Hx);
  unfold ret in Hrun; injection Hrun as <- <-;
  unfold encode at 1; cbn [serialize inst];
  rewrite !serialize_encode, app_nil_l, !length_app;
  cbn -[encode length Nat.add]; lia.

#[export] Instance XdrConsumes_opaque_auth : XdrConsumes opaque_auth.
Proof. struct_consumes XdrTrait_opaque_auth. Qed.

#[export] Instance XdrConsumes_call_body : XdrConsumes call_body.
Proof. struct_consumes XdrTrait_call_body. Qed.

#[export] Instance XdrConsumes_rpc_msg_call : XdrConsumes rpc_msg_call.
Proof. struct_consumes XdrTrait_rpc_msg_call. Qed.

#[export] Instance XdrConsumes_mismatch_info : XdrConsumes mismatch_info.
Proof. struct_consumes XdrTrait_mismatch_info. Qed.

#[export] Instance XdrConsumes_accepted_reply : XdrConsumes accepted_reply.
Proof. struct_consumes XdrTrait_accepted_reply. Qed.

#[export] Instance XdrConsumes_authsys_parms : XdrConsumes authsys_parms.
Proof. struct_consumes XdrTrait_authsys_parms. Qed.

#[export] Instance XdrConsumes_rejected_reply : XdrConsumes rejected_reply.
Proof.
  split. intros c a rest Hrun.
  cbn [deserialize XdrTrait_rejected_reply] in Hrun.
  unfold deserialize_rejected_reply in Hrun.
  apply bind_Ok_inv in Hrun as (t & c1 & Ht & Hrun).
  apply deserialize_consumes in Ht.
  destruct t;
    apply bind_Ok_inv in Hrun as (x & c2 & Hx & Hrun);
    apply deserialize_consumes in Hx;
    injection Hrun as <- <-;
    unfold encode at 1; cbn [serialize XdrTrait_rejected_reply];
    unfold serialize_variant; cbn [tag v];
    rewrite !serialize_encode, app_nil_l, length_app; lia.
Qed.

#[export] Instance XdrConsumes_reply_body : XdrConsumes reply_body.
Proof.
  split. intros c a rest Hrun.
  cbn [deserialize XdrTrait_reply_body] in Hrun.
  unfold deserialize_reply_body in Hrun.
  apply bind_Ok_inv in Hrun as (t & c1 & Ht & Hrun).
  apply deserialize_consumes in Ht.
  destruct t;
    apply bind_Ok_inv in Hrun as (x & c2 & Hx & Hrun);
    apply deserialize_consumes in Hx;
    injection Hrun as <- <-;
    unfold encode at 1; cbn [serialize XdrTrait_reply_body];
    unfold serialize_variant; cbn [tag v];
    rewrite !serialize_encode, app_nil_l, length_app; lia.
Qed.

#[export] Instance XdrConsumes_rpc_msg_reply : XdrConsumes rpc_msg_reply.
Proof. struct_consumes XdrTrait_rpc_msg_reply. Qed.

Lemma model_consumes (m : message_model) :
  @XdrConsumes (carrier m) (model_trait m).
Proof. destruct m; simpl; exact _. Qed.

(** X14.  A successful [deserialize] moves the cursor by exactly the
    number of bytes [serialize] writes for the value it returned, which is
    a whole number of 4-byte words: after any message the cursor stands on
    a word boundary of the buffer it started in. *)
Theorem decode_consumes_encoded_length :
  forall (m : message_model) (c : Cursor) (a : carrier m) (rest : Cursor),
    decode m c = Ok (a, rest) ->
    length c = (length (encode_model m a) + length rest)%nat /\
    ((length c - length rest) mod 4 = 0)%nat.
Proof.
  intros m c a rest Hrun.
  pose proof (model_consumes m) as L. pose proof (model_aligned m) as L'.
  pose proof (@deserialize_consumes _ _ L _ _ _ Hrun) as Hlen.
  split; [exact Hlen|].
  unfold encode_model in Hlen. rewrite Hlen, Nat.add_sub.
  apply (@encode_aligned _ _ L').
Qed.

Lemma decode_consumes_encoded_length_witness :
  length (encode_model M_call_body scenario_A ++ be32_bytes 5)
  = Nat.add (length (encode_model M_call_body scenario_A))
            (length (be32_bytes 5)) /\
  Nat.modulo
    (Nat.sub (length (encode_model M_call_body scenario_A ++ be32_bytes 5))
             (length (be32_bytes 5))) 4
  = 0%nat.
Proof.
  apply (decode_consumes_encoded_length M_call_body
           (encode_model M_call_body scenario_A ++ be32_bytes 5)
           scenario_A (be32_bytes 5)).
  reflexivity.
Defined.
